(** * Lines of symmetry of a finite point set: a shallow embedding

    The development follows [symmetry.py]: the decimal normalisation
    helper, [Point], [Line], [BisectionPoint] and [SymmetryLineFinder].
    The program computes with Python's [decimal.Decimal] under the ambient
    context precision, so the first part of the file is a model of that
    arithmetic: finite decimals are triples (sign, coefficient, exponent),
    every operation computes the exact result and then rounds it to the
    context precision with ROUND_HALF_EVEN (the default context).

    Modelling boundary, stated once:
    - decimals are finite or the quiet not-a-number sentinel; infinities and
      signalling NaNs are never produced by the program from finite input
      and are not represented;
    - exponents are unbounded integers (the context limits Emax/Emin are
      not represented), so no operation overflows or underflows;
    - sign and payload of a NaN are not represented;
    - the context precision is a parameter [prec] of every definition that
      reads [getcontext().prec]. *)

From Stdlib Require Import ZArith NArith QArith Qpower Qfield Zpow_facts.
From Stdlib Require Import List Bool Lia Permutation String.
From Stdlib Require Import Qabs Lqa.
Import ListNotations.
Local Open Scope Z_scope.

(** ** Python's [decimal] arithmetic *)

Module PyDecimal.

Inductive Decimal : Type :=
| Fin (sign : bool) (coeff : N) (exp : Z)
| NaN.

(** [10 ** k] on coefficients. *)
Definition pow10 (k : Z) : N := (10 ^ Z.to_N k)%N.

(** [len(self._int)]: the number of decimal digits of a coefficient, found
    by running through the powers of ten; the coefficient zero is the
    one-digit string "0". *)
Fixpoint ndigits_aux (fuel : nat) (p c : N) (k : Z) : Z :=
  match fuel with
  | O => k
  | S f => if (c <? p)%N then k else ndigits_aux f (10 * p)%N c (k + 1)
  end.

Definition ndigits (c : N) : Z := ndigits_aux (N.to_nat (N.size c)) 10%N c 1.

(** ROUND_HALF_EVEN of a coefficient from which the [k] low digits are
    dropped: the kept digits, plus one when the dropped part is above one
    half, or is exactly one half and the kept part is odd. *)
Definition round_half_even (c : N) (k : Z) : N :=
  let p := pow10 k in
  let q := (c / p)%N in
  let r := (c mod p)%N in
  if (p <? 2 * r)%N then (q + 1)%N
  else if (2 * r =? p)%N then (if N.odd q then (q + 1)%N else q)
  else q.

(** [Decimal._fix(context)]: round to at most [prec] significant digits.
    A zero and a coefficient that already fits are returned unchanged. *)
Definition fix_ (prec : Z) (d : Decimal) : Decimal :=
  match d with
  | NaN => NaN
  | Fin s c e =>
      if (c =? 0)%N then d
      else
        let exp_min := ndigits c + e - prec in
        if e <? exp_min then
          let digits := ndigits c + e - exp_min in
          let coeff := round_half_even c (ndigits c - digits) in
          if prec <? ndigits coeff
          then Fin s (coeff / 10)%N (exp_min + 1)
          else Fin s coeff exp_min
        else d
  end.

(** The loop [while int[end-1] == '0': exp += 1; end -= 1], run for at
    most [fuel] turns. *)
Fixpoint strip_zeros (fuel : nat) (c : N) (e : Z) : N * Z :=
  match fuel with
  | O => (c, e)
  | S f => if (c mod 10 =? 0)%N then strip_zeros f (c / 10)%N (e + 1) else (c, e)
  end.

(** [Decimal.normalize(context)]: round, then strip trailing zeros; anything
    equal to zero becomes [0e0] and keeps its sign. *)
Definition dec_normalize (prec : Z) (d : Decimal) : Decimal :=
  match fix_ prec d with
  | NaN => NaN
  | Fin s c e =>
      if (c =? 0)%N then Fin s 0 0
      else let '(c', e') := strip_zeros (N.to_nat (N.size c)) c e in Fin s c' e'
  end.

Definition signed (s : bool) (c : N) : Z := if s then - Z.of_N c else Z.of_N c.

(** [copy_negate]. *)
Definition dec_neg (d : Decimal) : Decimal :=
  match d with
  | NaN => NaN
  | Fin s c e => Fin (negb s) c e
  end.

(** [a + b]: the exact sum at the smaller exponent, rounded.  A zero sum is
    negative only when both operands are negative. *)
Definition dec_add (prec : Z) (a b : Decimal) : Decimal :=
  match a, b with
  | Fin s1 c1 e1, Fin s2 c2 e2 =>
      let e := Z.min e1 e2 in
      let v := signed s1 c1 * 10 ^ (e1 - e) + signed s2 c2 * 10 ^ (e2 - e) in
      let s := if v =? 0 then s1 && s2 else v <? 0 in
      fix_ prec (Fin s (Z.abs_N v) e)
  | _, _ => NaN
  end.

(** [a - b] is [a + b.copy_negate()]. *)
Definition dec_sub (prec : Z) (a b : Decimal) : Decimal :=
  dec_add prec a (dec_neg b).

(** [a * b]: coefficients multiplied, exponents added, rounded. *)
Definition dec_mul (prec : Z) (a b : Decimal) : Decimal :=
  match a, b with
  | Fin s1 c1 e1, Fin s2 c2 e2 => fix_ prec (Fin (xorb s1 s2) (c1 * c2)%N (e1 + e2))
  | _, _ => NaN
  end.

(** [a / b] ([Decimal.__truediv__]): an integer division carried to
    [prec + 1] digits with a sticky last digit, or the exact quotient brought
    as close as possible to the ideal exponent; then rounded.  Python raises
    DivisionByZero (or InvalidOperation for 0/0) on a zero divisor; the model
    returns [NaN] there, and [division_sites_nonzero] below shows that no
    division of the program has a zero divisor. *)
Definition dec_div (prec : Z) (a b : Decimal) : Decimal :=
  match a, b with
  | Fin s1 c1 e1, Fin s2 c2 e2 =>
      let s := xorb s1 s2 in
      if (c2 =? 0)%N then NaN
      else if (c1 =? 0)%N then fix_ prec (Fin s 0 (e1 - e2))
      else
        let shift := ndigits c2 - ndigits c1 + prec + 1 in
        let exp := e1 - e2 - shift in
        let '(coeff, remainder) :=
          if 0 <=? shift then N.div_eucl (c1 * pow10 shift) c2
          else N.div_eucl c1 (c2 * pow10 (- shift)) in
        if (remainder =? 0)%N then
          let '(coeff', exp') := strip_zeros (Z.to_nat shift) coeff exp in
          fix_ prec (Fin s coeff' exp')
        else
          fix_ prec (Fin s (if (coeff mod 5 =? 0)%N then coeff + 1 else coeff)%N exp)
  | _, _ => NaN
  end.

(** [a == b]: numeric comparison; false as soon as an operand is NaN. *)
Definition dec_eqb (a b : Decimal) : bool :=
  match a, b with
  | Fin s1 c1 e1, Fin s2 c2 e2 =>
      let e := Z.min e1 e2 in
      signed s1 c1 * 10 ^ (e1 - e) =? signed s2 c2 * 10 ^ (e2 - e)
  | _, _ => false
  end.

Definition is_nan (d : Decimal) : bool :=
  match d with NaN => true | Fin _ _ _ => false end.

(** [Decimal(n)] for a Python int [n]. *)
Definition dec_of_int (n : Z) : Decimal := Fin (n <? 0) (Z.abs_N n) 0.

(** The rational number a finite decimal stands for (0 for NaN, which the
    statements below always exclude). *)
Definition dec_value (d : Decimal) : Q :=
  match d with
  | Fin s c e => (inject_Z (signed s c) * (inject_Z 10) ^ e)%Q
  | NaN => 0%Q
  end.

(** An operation is exact at its operands when rounding did not change the
    mathematical result. *)
Definition exact_add (prec : Z) (a b : Decimal) : Prop :=
  (dec_value (dec_add prec a b) == dec_value a + dec_value b)%Q.
Definition exact_sub (prec : Z) (a b : Decimal) : Prop :=
  (dec_value (dec_sub prec a b) == dec_value a - dec_value b)%Q.
Definition exact_mul (prec : Z) (a b : Decimal) : Prop :=
  (dec_value (dec_mul prec a b) == dec_value a * dec_value b)%Q.
Definition exact_div (prec : Z) (a b : Decimal) : Prop :=
  (dec_value (dec_div prec a b) * dec_value b == dec_value a)%Q.

(** A coefficient in canonical form: no trailing zero, and zero is [0e0]. *)
Definition canonical (d : Decimal) : Prop :=
  match d with
  | NaN => True
  | Fin _ c e => if (c =? 0)%N then e = 0 else (c mod 10)%N <> 0%N
  end.

End PyDecimal.
Export PyDecimal.

(** ** CPython's hashes (64-bit build, version 3.8 or later)

    [hash(Decimal)] follows the numeric-hash rule modulo the Mersenne prime
    2^61 - 1; [hash(tuple)] is the xxHash-style mix of [tupleobject.c] on
    unsigned 64-bit words.  The hash of a [str] is salted per process and
    the hash of a quiet NaN is derived from the object's address: both are
    parameters of the development. *)

Module PyHash.

(** [_PyHASH_MODULUS = 2**61 - 1] and [_PyHASH_10INV = pow(10, _PyHASH_MODULUS - 2,
    _PyHASH_MODULUS)] *)
Definition PyHASH_MODULUS : Z := 2305843009213693951.
Definition PyHASH_10INV : Z := 2075258708292324556.

Definition hash_Decimal (hash_nan : Z) (d : Decimal) : Z :=
  match d with
  | NaN => hash_nan
  | Fin s c e =>
      let exp_hash :=
        if 0 <=? e then Zpow_mod 10 e PyHASH_MODULUS
        else Zpow_mod PyHASH_10INV (- e) PyHASH_MODULUS in
      let hash_ := (Z.of_N c * exp_hash) mod PyHASH_MODULUS in
      let ans := if negb s || (c =? 0)%N then hash_ else - hash_ in
      if ans =? -1 then -2 else ans
  end.

(** Unsigned and signed 64-bit words: [two64 = 2**64], [two63 = 2**63]. *)
Definition two64 : Z := 18446744073709551616.
Definition two63 : Z := 9223372036854775808.
Definition u64 (z : Z) : Z := z mod two64.
Definition i64 (z : Z) : Z := let u := u64 z in if u <? two63 then u else u - two64.
Definition XXPRIME_1 : Z := 11400714785074694791.
Definition XXPRIME_2 : Z := 14029467366897019727.
Definition XXPRIME_5 : Z := 2870177450012600261.
Definition XXROTATE (x : Z) : Z := u64 (Z.lor (Z.shiftl x 31) (Z.shiftr x 33)).

Definition tuplehash (lanes : list Z) : Z :=
  let acc :=
    fold_left
      (fun acc lane => u64 (XXROTATE (u64 (acc + u64 lane * XXPRIME_2)) * XXPRIME_1))
      lanes XXPRIME_5 in
  let acc := u64 (acc + Z.lxor (Z.of_nat (List.length lanes)) (Z.lxor XXPRIME_5 3527539)) in
  if acc =? two64 - 1 then 1546275796 else i64 acc.

(** An element of a hashed tuple: a decimal or a string. *)
Inductive hash_item : Type :=
| ItemDecimal (d : Decimal)
| ItemStr (s : string).

End PyHash.
Export PyHash.

(** ** The program: [symmetry.py] *)

Inductive exn : Type := ValueError.

Inductive result (A : Type) : Type :=
| Ok (a : A)
| Raise (e : exn).
Arguments Ok {A} a.
Arguments Raise {A} e.

(** [Point.__init__] and [Line.__init__] pass every field through
    [Decimal(str(v))], which is the identity on a decimal. *)
Record Point : Type := mkPoint { Point_x : Decimal; Point_y : Decimal }.

(** A line carries all three fields; the unused ones hold NaN. *)
Record Line : Type :=
  mkLine { Line_slope : Decimal; Line_intercept : Decimal; Line_x : Decimal }.

(** A [BisectionPoint] is a [Point] that remembers its two parents; equality
    and hash are inherited and only read the coordinates. *)
Record BisectionPoint : Type :=
  mkBisectionPoint { bp_point : Point; bp_p0 : Point; bp_p1 : Point }.

Record SymmetryLineFinder : Type := mkFinder { points : list Point }.

(** The iteration order of [list(set(points))] is fixed by the interpreter,
    not by the program: it is some rearrangement of the set's elements. *)
Record SetOrder : Type := mkSetOrder {
  set_order :> list Point -> list Point;
  set_order_perm : forall l, Permutation (set_order l) l
}.

Definition insertion_order : SetOrder :=
  mkSetOrder (fun l => l) (fun l => Permutation_refl l).

Section Symmetry.

(** [getcontext().prec], the hash of a NaN object and the hash of strings. *)
Variable prec : Z.
Variable hash_nan : Z.
Variable hash_str : string -> Z.

(** [normalize(d)]: [d.normalize()] in a local context of precision
    [prec - 1].  Python refuses a context precision below 1 (ValueError):
    for [prec < 2] this function has no counterpart in the program, and a
    statement that needs [1 <= prec - 1] says so. *)
Definition normalize (d : Decimal) : Decimal := dec_normalize (prec - 1) d.

Definition hash_of_item (i : hash_item) : Z :=
  match i with
  | ItemDecimal d => hash_Decimal hash_nan d
  | ItemStr s => hash_str s
  end.

(** [Point.__eq__] *)
Definition Point_eq (self other : Point) : bool :=
  dec_eqb (normalize (Point_x self)) (normalize (Point_x other))
  && dec_eqb (normalize (Point_y self)) (normalize (Point_y other)).

(** [Point.__hash__] *)
Definition Point_hash (self : Point) : Z :=
  tuplehash (map hash_of_item
    [ItemDecimal (normalize (Point_x self)); ItemDecimal (normalize (Point_y self))]).

(** [Line.is_vertical] *)
Definition is_vertical (self : Line) : bool :=
  is_nan (Line_slope self) || is_nan (Line_intercept self).

(** [Line.is_horizontal] *)
Definition is_horizontal (self : Line) : bool :=
  dec_eqb (Line_slope self) (dec_of_int 0).

(** [Line.__eq__] *)
Definition Line_eq (self other : Line) : bool :=
  if is_vertical self && is_vertical other then
    negb (is_nan (Line_x self))
    && dec_eqb (normalize (Line_x self)) (normalize (Line_x other))
  else
    dec_eqb (normalize (Line_slope self)) (normalize (Line_slope other))
    && dec_eqb (normalize (Line_intercept self)) (normalize (Line_intercept other)).

(** [normalize(v) if not v.is_nan() else "nan"] *)
Definition nan_or_normalized (d : Decimal) : hash_item :=
  if negb (is_nan d) then ItemDecimal (normalize d) else ItemStr "nan".

(** [Line.__hash__] *)
Definition Line_hash (self : Line) : Z :=
  let s := nan_or_normalized (Line_slope self) in
  let i := nan_or_normalized (Line_intercept self) in
  let x := nan_or_normalized (Line_x self) in
  tuplehash (map hash_of_item [s; i; x]).

(** [Line.from_points] *)
Definition from_points (p0 p1 : Point) : Line :=
  let den := dec_sub prec (Point_x p1) (Point_x p0) in
  if negb (dec_eqb den (dec_of_int 0)) then
    let slope := dec_div prec (dec_sub prec (Point_y p1) (Point_y p0)) den in
    mkLine slope (dec_sub prec (Point_y p1) (dec_mul prec slope (Point_x p1))) NaN
  else
    mkLine NaN NaN (Point_x p1).

(** [Line.contains_point] *)
Definition contains_point (self : Line) (p0 : Point) : bool :=
  dec_eqb (Point_y p0)
    (dec_add prec (dec_mul prec (Point_x p0) (Line_slope self)) (Line_intercept self)).

(** [Line.perpendicular_intersection_point] *)
Definition perpendicular_intersection_point (self : Line) (p0 : Point) : Point :=
  if is_vertical self then mkPoint (Line_x self) (Point_y p0)
  else if is_horizontal self then mkPoint (Point_x p0) (Line_intercept self)
  else
    let m := Line_slope self in
    let x :=
      dec_mul prec
        (dec_div prec m (dec_add prec (dec_mul prec m m) (dec_of_int 1)))
        (dec_sub prec (dec_add prec (Point_y p0) (dec_div prec (Point_x p0) m))
                      (Line_intercept self)) in
    let y := dec_add prec (dec_mul prec m x) (Line_intercept self) in
    mkPoint x y.

(** [Line.folded_point] *)
Definition folded_point (self : Line) (p0 : Point) : Point :=
  if contains_point self p0 then p0
  else
    let p_int := perpendicular_intersection_point self p0 in
    mkPoint (dec_sub prec (dec_mul prec (dec_of_int 2) (Point_x p_int)) (Point_x p0))
            (dec_sub prec (dec_mul prec (dec_of_int 2) (Point_y p_int)) (Point_y p0)).

(** The inner loop of [is_symmetry_line]: does some [points[i2]] equal the
    folded point? *)
Fixpoint scan_for_match (f1 : Point) (pts : list Point) : bool :=
  match pts with
  | [] => false
  | q :: rest => if Point_eq q f1 then true else scan_for_match f1 rest
  end.

(** The outer loop over [i1], with its early [return False]. *)
Fixpoint fold_each (self : Line) (all todo : list Point) : bool :=
  match todo with
  | [] => true
  | p :: rest =>
      let f1 := folded_point self p in
      if Point_eq f1 p then fold_each self all rest
      else if scan_for_match f1 all then fold_each self all rest
      else false
  end.

(** [Line.is_symmetry_line] *)
Definition is_symmetry_line (self : Line) (pts : list Point) : bool :=
  fold_each self pts pts.

(** [BisectionPoint.__init__] *)
Definition BisectionPoint_init (p0 p1 : Point) : BisectionPoint :=
  let two := Fin false 20 (-1) in
  mkBisectionPoint
    (mkPoint
       (dec_add prec (dec_div prec (dec_sub prec (Point_x p1) (Point_x p0)) two) (Point_x p0))
       (dec_add prec (dec_div prec (dec_sub prec (Point_y p1) (Point_y p0)) two) (Point_y p0)))
    p0 p1.

(** A Python set keeps every key with its hash.  A lookup with key [p] of
    hash [h] succeeds on an entry of the same hash whose key is [p] itself
    or compares equal to it ([entry == p]).  Values carry no object
    identity: every list element and every line built by the generator
    counts as an object of its own.  This only matters for a Point with a
    NaN coordinate that occurs twice as the same object in the input, which
    Python keeps once and the model keeps twice. *)
Definition set_contains {K : Type} (eq : K -> K -> bool) (h : Z) (p : K)
    (s : list (Z * K)) : bool :=
  existsb (fun e => (fst e =? h) && eq (snd e) p) s.

(** [set(points)] *)
Definition set_add (s : list (Z * Point)) (p : Point) : list (Z * Point) :=
  let h := Point_hash p in
  if set_contains Point_eq h p s then s else s ++ [(h, p)].

Definition py_set (l : list Point) : list Point := map snd (fold_left set_add l []).

(** [SymmetryLineFinder.__init__] *)
Definition SymmetryLineFinder_init (order : SetOrder) (pts : list Point)
  : result SymmetryLineFinder :=
  if (List.length pts <=? 2)%nat then Raise ValueError
  else Ok (mkFinder (order (py_set pts))).

(** The builtin [sum] starts from the int 0; the first addition is
    [d.__radd__(0)]. *)
Definition py_sum (l : list Decimal) : Decimal :=
  match l with
  | [] => dec_of_int 0
  | d :: rest => fold_left (dec_add prec) rest (dec_add prec d (dec_of_int 0))
  end.

(** [SymmetryLineFinder._centroid] *)
Definition _centroid (self : SymmetryLineFinder) : Point :=
  let n := dec_of_int (Z.of_nat (List.length (points self))) in
  mkPoint (dec_div prec (py_sum (map Point_x (points self))) n)
          (dec_div prec (py_sum (map Point_y (points self))) n).

(** The state of the generator: the [visited] set and the lines yielded so
    far. *)
Definition gen_state : Type := (list (Z * Line) * list Line)%type.

(** One turn of either loop: [if line1 not in visited: visited.add(line1);
    yield line1]. *)
Definition offer (st : gen_state) (line1 : Line) : gen_state :=
  let '(visited, yielded) := st in
  let h := Line_hash line1 in
  if negb (set_contains Line_eq h line1 visited)
  then ((h, line1) :: visited, yielded ++ [line1])
  else st.

(** The loops over [i0 < i1]. *)
Fixpoint pair_loop (cent : Point) (pts : list Point) (st : gen_state) : gen_state :=
  match pts with
  | [] => st
  | p0 :: rest =>
      pair_loop cent rest
        (fold_left
           (fun st p1 => offer st (from_points cent (bp_point (BisectionPoint_init p0 p1))))
           rest st)
  end.

(** The loop over the vertices. *)
Definition vertex_loop (cent : Point) (pts : list Point) (st : gen_state) : gen_state :=
  fold_left (fun st p => offer st (from_points cent p)) pts st.

(** [SymmetryLineFinder._candidate_symmetry_lines], as the list of the
    lines it yields. *)
Definition _candidate_symmetry_lines (self : SymmetryLineFinder) : list Line :=
  if (List.length (points self) <? 3)%nat then []
  else
    let cent := _centroid self in
    snd (vertex_loop cent (points self) (pair_loop cent (points self) ([], []))).

(** [SymmetryLineFinder.find_all] *)
Definition find_all (self : SymmetryLineFinder) : list (bool * Line) :=
  map (fun line => (is_symmetry_line line (points self), line))
      (_candidate_symmetry_lines self).

(** [SymmetryLineFinder.find] *)
Definition find (self : SymmetryLineFinder) : list Line :=
  map snd (filter fst (find_all self)).

End Symmetry.

(** ** Vocabulary of the statements *)

(** A decimal that is a zero of either sign and any exponent. *)
Definition is_zero (d : Decimal) : bool :=
  match d with Fin _ c _ => (c =? 0)%N | NaN => false end.

Definition finite_point (p : Point) : Prop :=
  is_nan (Point_x p) = false /\ is_nan (Point_y p) = false.

(** The lines [from_points] builds: the unused fields hold NaN. *)
Definition shaped (l : Line) : Prop :=
  is_nan (Line_x l) = true \/
  (is_nan (Line_slope l) = true /\ is_nan (Line_intercept l) = true).

(** The fold of every point is equal to some point of the list. *)
Definition folds_into (prec : Z) (line : Line) (pts : list Point) : Prop :=
  forall p, In p pts ->
    exists q, In q pts /\ Point_eq prec q (folded_point prec line p) = true.


(** A point the generator draws a line to from the centroid: a vertex or
    the midpoint of two vertices. *)
Definition candidate_target (prec : Z) (pts : list Point) (q : Point) : Prop :=
  In q pts \/
  exists p0 p1, In p0 pts /\ In p1 pts /\ q = bp_point (BisectionPoint_init prec p0 p1).

(** No rounding in the five operations of [from_points]. *)
Definition from_points_exact (prec : Z) (p0 p1 : Point) : Prop :=
  let den := dec_sub prec (Point_x p1) (Point_x p0) in
  let num := dec_sub prec (Point_y p1) (Point_y p0) in
  let slope := dec_div prec num den in
  exact_sub prec (Point_x p1) (Point_x p0) /\
  exact_sub prec (Point_y p1) (Point_y p0) /\
  exact_div prec num den /\
  exact_mul prec slope (Point_x p1) /\
  exact_sub prec (Point_y p1) (dec_mul prec slope (Point_x p1)).

(** No rounding in the two operations of [contains_point]. *)
Definition contains_exact (prec : Z) (self : Line) (p0 : Point) : Prop :=
  exact_mul prec (Point_x p0) (Line_slope self) /\
  exact_add prec (dec_mul prec (Point_x p0) (Line_slope self)) (Line_intercept self).


(** What the generator keeps true: the set holds exactly the yielded lines
    with their hashes, every yielded line is drawn from the centroid to an
    admissible target, and no two yielded lines are equal. *)
Record gen_inv (prec hash_nan : Z) (hash_str : string -> Z)
    (T : Point -> Prop) (cent : Point) (st : gen_state) : Prop := {
  inv_visited : forall e, In e (fst st) ->
    fst e = Line_hash prec hash_nan hash_str (snd e) /\ In (snd e) (snd st);
  inv_yielded : forall l, In l (snd st) ->
    In (Line_hash prec hash_nan hash_str l, l) (fst st);
  inv_source : forall l, In l (snd st) -> exists q, T q /\ l = from_points prec cent q;
  inv_distinct : ForallOrdPairs (fun a b => Line_eq prec a b = false) (snd st)
}.

(** What [set(points)] keeps true while it is filled from the input read
    so far: the stored hashes are right, every point read is in the set or
    equal to an element of it, and no two elements are equal. *)
Definition set_inv (prec hash_nan : Z) (hash_str : string -> Z)
    (seen : list Point) (s : list (Z * Point)) : Prop :=
  (forall e, In e s ->
     fst e = Point_hash prec hash_nan hash_str (snd e) /\ In (snd e) seen) /\
  (forall p, In p seen ->
     exists q, In q (map snd s) /\ (q = p \/ Point_eq prec q p = true)) /\
  ForallOrdPairs (fun a b => Point_eq prec a b = false) (map snd s).

(** Two runs of the generator under different hash salts. *)
Definition gen_sim (prec hn hn' : Z) (hs hs' : string -> Z)
    (T : Point -> Prop) (cent : Point) (st st' : gen_state) : Prop :=
  gen_inv prec hn hs T cent st /\ gen_inv prec hn' hs' T cent st' /\ snd st = snd st'.

(** All rearrangements of a list. *)
Fixpoint insert_everywhere {A : Type} (a : A) (l : list A) : list (list A) :=
  match l with
  | [] => [[a]]
  | b :: r => (a :: l) :: map (cons b) (insert_everywhere a r)
  end.

Fixpoint orderings {A : Type} (l : list A) : list (list A) :=
  match l with
  | [] => [[]]
  | a :: r => flat_map (insert_everywhere a) (orderings r)
  end.

(** Two lists of lines with the same elements up to Line equality, as
    [assertEqual(set(...), set(...))] compares them in [tests.py]. *)
Definition same_lines (prec : Z) (l1 l2 : list Line) : bool :=
  forallb (fun a => existsb (fun b => Line_eq prec b a) l2) l1
  && forallb (fun b => existsb (fun a => Line_eq prec a b) l1) l2.




(** A line as [from_points] builds it from finite points: vertical with a
    set [x], or sloped with a set slope and intercept. *)
Definition well_formed_line (l : Line) : Prop :=
  (is_nan (Line_slope l) = true /\ is_nan (Line_intercept l) = true /\
   is_nan (Line_x l) = false)
  \/
  (is_nan (Line_slope l) = false /\ is_nan (Line_intercept l) = false /\
   is_nan (Line_x l) = true).

(** Two decimals that stand for the same number (whatever the exponent or
    the sign of a zero), or are both NaN. *)
Definition same_value (a b : Decimal) : Prop :=
  (is_nan a = true /\ is_nan b = true) \/ dec_eqb a b = true.

Definition same_point (p q : Point) : Prop :=
  same_value (Point_x p) (Point_x q) /\ same_value (Point_y p) (Point_y q).

Definition same_line (l m : Line) : Prop :=
  same_value (Line_slope l) (Line_slope m) /\
  same_value (Line_intercept l) (Line_intercept m) /\
  same_value (Line_x l) (Line_x m).

(** Two states of the generator that hold the same lines. *)
Definition same_state (st st' : gen_state) : Prop :=
  Forall2 (fun e e' => fst e = fst e' /\ same_line (snd e) (snd e')) (fst st) (fst st') /\
  Forall2 same_line (snd st) (snd st').

(** Half a unit in the last place that [fix_] keeps at precision [p]. *)
Definition half_unit (p : Z) (d : Decimal) : Q :=
  match d with
  | Fin _ c e => ((1 # 2) * inject_Z 10 ^ (Z.max 0 (ndigits c - p) + e))%Q
  | NaN => 0%Q
  end.

(** A coefficient of at most [p] digits. *)
Definition fits (p : Z) (d : Decimal) : Prop :=
  match d with Fin _ c _ => ndigits c <= p | NaN => False end.

(** No rounding in the nine operations of the general case of
    [perpendicular_intersection_point]. *)
Definition perpendicular_exact (prec : Z) (self : Line) (p0 : Point) : Prop :=
  let m := Line_slope self in
  let mm := dec_mul prec m m in
  let den := dec_add prec mm (dec_of_int 1) in
  let q := dec_div prec m den in
  let r := dec_div prec (Point_x p0) m in
  let s := dec_add prec (Point_y p0) r in
  let t := dec_sub prec s (Line_intercept self) in
  let x := dec_mul prec q t in
  let mx := dec_mul prec m x in
  exact_mul prec m m /\ exact_add prec mm (dec_of_int 1) /\ exact_div prec m den /\
  exact_div prec (Point_x p0) m /\ exact_add prec (Point_y p0) r /\
  exact_sub prec s (Line_intercept self) /\ exact_mul prec q t /\
  exact_mul prec m x /\ exact_add prec mx (Line_intercept self).

(** No rounding in [2 * p_int.x - p0.x] and [2 * p_int.y - p0.y]. *)
Definition reflect_exact (prec : Z) (p_int p0 : Point) : Prop :=
  exact_mul prec (dec_of_int 2) (Point_x p_int) /\
  exact_sub prec (dec_mul prec (dec_of_int 2) (Point_x p_int)) (Point_x p0) /\
  exact_mul prec (dec_of_int 2) (Point_y p_int) /\
  exact_sub prec (dec_mul prec (dec_of_int 2) (Point_y p_int)) (Point_y p0).

(** No rounding in the additions of [sum(l)] continued from [acc]. *)
Fixpoint adds_exact (prec : Z) (acc : Decimal) (l : list Decimal) : Prop :=
  match l with
  | [] => True
  | d :: rest => exact_add prec acc d /\ adds_exact prec (dec_add prec acc d) rest
  end.

Definition sum_exact (prec : Z) (l : list Decimal) : Prop :=
  match l with
  | [] => True
  | d :: rest =>
      exact_add prec d (dec_of_int 0) /\ adds_exact prec (dec_add prec d (dec_of_int 0)) rest
  end.

(** The sum of the values of a list of decimals. *)
Fixpoint total (l : list Decimal) : Q :=
  match l with
  | [] => 0%Q
  | d :: rest => (dec_value d + total rest)%Q
  end.

(** No rounding in [(b - a) / 2.0 + a]. *)
Definition bisect_exact (prec : Z) (a b : Decimal) : Prop :=
  exact_sub prec b a /\
  exact_div prec (dec_sub prec b a) (Fin false 20 (-1)) /\
  exact_add prec (dec_div prec (dec_sub prec b a) (Fin false 20 (-1))) a.

(** ** Concrete inputs *)

Module Examples.

(** The default context precision, and a stand-in for the per-process
    hashes (by [find_hash_independent] they do not influence the result). *)
Definition prec28 : Z := 28.
Definition hash_nan0 : Z := 0.
Definition hash_str0 : string -> Z := fun _ => 0.

Definition pt (a b : Z) : Point := mkPoint (dec_of_int a) (dec_of_int b).

(** The square of [tests.py]. *)
Definition square : list Point := [pt 0 50; pt 50 50; pt 50 0; pt 0 0].
Definition square_axis : Line := mkLine NaN NaN (Fin false 25 0).

(** A right isosceles triangle whose centroid has no finite expansion. *)
Definition triangle : list Point := [pt 1 0; pt 2 0; pt 2 1].
Definition triangle_axis : Line :=
  mkLine (Fin true 1000000000000000000000000001 (-27))
         (Fin false 2000000000000000000000000002 (-27)) NaN.


(** Three copies of one point. *)
Definition three_copies : list Point := [pt 1 1; pt 1 1; pt 1 1].

(** [Line(1.1, 2.1, 3)] and [Line(1.1, 2.1, 5)] of [test_line___eq__]. *)
Definition line_x3 : Line := mkLine (Fin false 11 (-1)) (Fin false 21 (-1)) (dec_of_int 3).
Definition line_x5 : Line := mkLine (Fin false 11 (-1)) (Fin false 21 (-1)) (dec_of_int 5).


(** [Point(4, 1)], [Point(4, 5)] of [test_from_points_vertical] and
    [Point(4, 1)], [Point(2, -2)] of [test_from_points]. *)
Definition v0 : Point := pt 4 1.
Definition v1 : Point := pt 4 5.
Definition s0 : Point := pt 4 1.
Definition s1 : Point := pt 2 (-2).

(** A sloped pair whose slope 1/3 is rounded. *)
Definition r0 : Point := pt 0 0.
Definition r1 : Point := pt 3 1.


(** The value of the docstring of [normalize]. *)
Definition almost_minus_two : Decimal := Fin true 1999999999 (-9).

(** The precision and some inputs of [tests.py]. *)
Definition prec100 : Z := 100.
Definition test_triangle : list Point := [pt 0 50; pt 50 50; pt 50 0].
Definition test_square : list Point := [pt 501 501; pt 501 1001; pt 1001 1001; pt 1001 501].
Definition line_1_2 : Line := mkLine (dec_of_int 1) (dec_of_int 2) NaN.

(** The square written with other exponents and a negative zero:
    [0.0, 50.0], [5E+1, 50], [50.00, -0], [0, 0.000]. *)
Definition square_rewritten : list Point :=
  [mkPoint (Fin false 0 (-1)) (Fin false 500 (-1));
   mkPoint (Fin false 5 1) (Fin false 50 0);
   mkPoint (Fin false 5000 (-2)) (Fin true 0 0);
   mkPoint (Fin false 0 0) (Fin false 0 (-3))].

Definition fifty_point_zero : Decimal := Fin false 500 (-1).
Definition line_y_eq_x : Line := mkLine (dec_of_int 1) (dec_of_int 0) NaN.
Definition line_y_eq_5 : Line := mkLine (dec_of_int 0) (dec_of_int 5) NaN.

End Examples.

(** ** Facts about the decimal arithmetic *)


(** *** Digit counts and powers of ten *)

Section DigitFacts.

Lemma pow10_pos k : (0 < pow10 k)%N.
Proof. unfold pow10. apply N.neq_0_lt_0, N.pow_nonzero. discriminate. Qed.

Lemma pow10_0 : pow10 0 = 1%N.
Proof. reflexivity. Qed.

Lemma pow10_neg k : k <= 0 -> pow10 k = 1%N.
Proof. intros H. unfold pow10. destruct k; try reflexivity; lia. Qed.

Lemma pow10_add a b : 0 <= a -> 0 <= b -> pow10 (a + b) = (pow10 a * pow10 b)%N.
Proof.
  intros Ha Hb. unfold pow10. rewrite Z2N.inj_add by assumption.
  apply N.pow_add_r.
Qed.

Lemma pow10_succ k : 0 <= k -> pow10 (k + 1) = (10 * pow10 k)%N.
Proof.
  intros Hk. rewrite pow10_add by lia. change (pow10 1) with 10%N. lia.
Qed.

Lemma pow10_le a b : a <= b -> (pow10 a <= pow10 b)%N.
Proof.
  intros H. unfold pow10. apply N.pow_le_mono_r; [discriminate | lia].
Qed.

Lemma pow10_lt a b : 0 <= a -> a < b -> (pow10 a < pow10 b)%N.
Proof.
  intros H0 H. unfold pow10. apply N.pow_lt_mono_r; lia.
Qed.

Lemma pow10_Z k : 0 <= k -> Z.of_N (pow10 k) = 10 ^ k.
Proof.
  intros Hk. unfold pow10. rewrite N2Z.inj_pow, Z2N.id by assumption. reflexivity.
Qed.

Lemma ndigits_aux_spec fuel : forall p c k,
  1 <= k -> p = pow10 k -> (c < p * 2 ^ N.of_nat fuel)%N ->
  (k = 1 \/ (pow10 (k - 1) <= c)%N) ->
  let r := ndigits_aux fuel p c k in
  1 <= r /\ (c < pow10 r)%N /\ (r = 1 \/ (pow10 (r - 1) <= c)%N).
Proof.
  induction fuel as [|f IH]; intros p c k Hk Hp Hc Hlow; cbn [ndigits_aux].
  - cbn in Hc. subst p. repeat split; [lia | lia | assumption].
  - destruct (N.ltb_spec c p) as [Hlt | Hge].
    + subst p. repeat split; [lia | assumption | assumption].
    + apply IH.
      * lia.
      * subst p. symmetry. apply pow10_succ. lia.
      * rewrite Nat2N.inj_succ, N.pow_succ_r' in Hc. nia.
      * right. replace (k + 1 - 1) with k by lia. subst p. assumption.
Qed.

Lemma ndigits_spec c :
  1 <= ndigits c /\ (c < pow10 (ndigits c))%N /\
  (c <> 0%N -> (pow10 (ndigits c - 1) <= c)%N).
Proof.
  unfold ndigits.
  destruct (ndigits_aux_spec (N.to_nat (N.size c)) 10%N c 1) as (H1 & H2 & H3).
  - lia.
  - reflexivity.
  - rewrite N2Nat.id. pose proof (N.size_gt c) as Hs.
    assert (0 < 2 ^ N.size c)%N by (apply N.neq_0_lt_0, N.pow_nonzero; discriminate).
    lia.
  - left; reflexivity.
  - repeat split; try assumption.
    intros Hc. destruct H3 as [-> | H3]; [cbn; lia | assumption].
Qed.

Lemma ndigits_unique c k :
  1 <= k -> (c < pow10 k)%N -> (k = 1 \/ (pow10 (k - 1) <= c)%N) -> ndigits c = k.
Proof.
  intros Hk Hup Hlow.
  destruct (ndigits_spec c) as (H1 & H2 & H3).
  destruct (Z.lt_trichotomy (ndigits c) k) as [Hlt | [Heq | Hgt]]; [exfalso | assumption | exfalso].
  - destruct Hlow as [-> | Hlow]; [lia |].
    pose proof (pow10_le (ndigits c) (k - 1) ltac:(lia)). lia.
  - assert (c <> 0%N) as Hc.
    { intros ->. unfold ndigits in Hgt. cbn in Hgt. lia. }
    specialize (H3 Hc). pose proof (pow10_le k (ndigits c - 1) ltac:(lia)). lia.
Qed.

Lemma ndigits_0 : ndigits 0 = 1.
Proof. reflexivity. Qed.

Lemma ndigits_scale c j : c <> 0%N -> 0 <= j -> ndigits (c * pow10 j) = ndigits c + j.
Proof.
  intros Hc Hj. destruct (ndigits_spec c) as (H1 & H2 & H3). specialize (H3 Hc).
  pose proof (pow10_pos j) as Hp.
  apply ndigits_unique.
  - lia.
  - rewrite pow10_add by lia. nia.
  - right. replace (ndigits c + j - 1) with ((ndigits c - 1) + j) by lia.
    rewrite pow10_add by lia. nia.
Qed.

Lemma ndigits_mono a b : (a <= b)%N -> ndigits a <= ndigits b.
Proof.
  intros Hab.
  destruct (ndigits_spec a) as (A1 & A2 & A3), (ndigits_spec b) as (B1 & B2 & B3).
  destruct (N.eq_dec a 0) as [-> | Ha]; [rewrite ndigits_0; lia |].
  specialize (A3 Ha).
  destruct (Z.le_gt_cases (ndigits a) (ndigits b)) as [|Hgt]; [assumption | exfalso].
  pose proof (pow10_le (ndigits b) (ndigits a - 1) ltac:(lia)). lia.
Qed.

End DigitFacts.


(** *** Rounding to the context precision *)

Section RoundingFacts.

Lemma div_pow10_bounds c k :
  c <> 0%N -> 0 <= k < ndigits c ->
  (pow10 (ndigits c - 1 - k) <= c / pow10 k < pow10 (ndigits c - k))%N.
Proof.
  intros Hc Hk. destruct (ndigits_spec c) as (H1 & H2 & H3). specialize (H3 Hc).
  pose proof (pow10_pos k) as Hp.
  split.
  - apply N.div_le_lower_bound; [lia |].
    rewrite N.mul_comm, <- pow10_add by lia.
    replace (ndigits c - 1 - k + k) with (ndigits c - 1) by lia. assumption.
  - apply N.Div0.div_lt_upper_bound.
    rewrite <- pow10_add by lia.
    replace (k + (ndigits c - k)) with (ndigits c) by lia. assumption.
Qed.

Lemma round_half_even_range c k :
  (c / pow10 k <= round_half_even c k <= c / pow10 k + 1)%N.
Proof.
  unfold round_half_even.
  repeat match goal with |- context [if ?b then _ else _] => destruct b end; lia.
Qed.

Lemma round_half_even_exact c k :
  (c mod pow10 k = 0)%N -> round_half_even c k = (c / pow10 k)%N.
Proof.
  intros Hr. unfold round_half_even. rewrite Hr. pose proof (pow10_pos k).
  destruct (N.ltb_spec (pow10 k) (2 * 0)) as [|_]; [lia |].
  destruct (N.eqb_spec (2 * 0) (pow10 k)) as [|_]; [lia | reflexivity].
Qed.

Lemma round_half_even_scale c k j :
  0 <= k -> 0 <= j ->
  round_half_even (c * pow10 j) (k + j) = round_half_even c k.
Proof.
  intros Hk Hj. unfold round_half_even.
  pose proof (pow10_pos k) as Hpk. pose proof (pow10_pos j) as Hpj.
  rewrite pow10_add by assumption.
  rewrite N.Div0.div_mul_cancel_r by lia.
  rewrite N.Div0.mul_mod_distr_r.
  set (q := (c / pow10 k)%N). set (r := (c mod pow10 k)%N).
  assert ((pow10 k * pow10 j <? 2 * (r * pow10 j))%N = (pow10 k <? 2 * r)%N) as ->.
  { destruct (N.ltb_spec (pow10 k) (2 * r)),
             (N.ltb_spec (pow10 k * pow10 j) (2 * (r * pow10 j)));
      try reflexivity; nia. }
  assert ((2 * (r * pow10 j) =? pow10 k * pow10 j)%N = (2 * r =? pow10 k)%N) as ->.
  { destruct (N.eqb_spec (2 * r) (pow10 k)),
             (N.eqb_spec (2 * (r * pow10 j)) (pow10 k * pow10 j));
      try reflexivity; nia. }
  reflexivity.
Qed.

(** The three cases of [_fix]. *)
Lemma fix_zero p s e : fix_ p (Fin s 0 e) = Fin s 0 e.
Proof. reflexivity. Qed.

Lemma fix_fits p s c e : ndigits c <= p -> fix_ p (Fin s c e) = Fin s c e.
Proof.
  intros H. unfold fix_. destruct (c =? 0)%N; [reflexivity |].
  destruct (Z.ltb_spec e (ndigits c + e - p)); [lia | reflexivity].
Qed.

Lemma fix_rounds p s c e :
  c <> 0%N -> p < ndigits c ->
  fix_ p (Fin s c e) =
    let coeff := round_half_even c (ndigits c - p) in
    if p <? ndigits coeff then Fin s (coeff / 10)%N (ndigits c + e - p + 1)
    else Fin s coeff (ndigits c + e - p).
Proof.
  intros Hc H. unfold fix_. destruct (N.eqb_spec c 0); [contradiction |].
  destruct (Z.ltb_spec e (ndigits c + e - p)); [| lia].
  replace (ndigits c - (ndigits c + e - (ndigits c + e - p))) with (ndigits c - p) by lia.
  reflexivity.
Qed.

Lemma fix_is_Fin p s c e : exists c' e', fix_ p (Fin s c e) = Fin s c' e'.
Proof.
  unfold fix_.
  repeat match goal with |- context [if ?b then _ else _] => destruct b end; eauto.
Qed.

Lemma fix_nan_iff p d : is_nan (fix_ p d) = is_nan d.
Proof.
  destruct d as [s c e|]; [| reflexivity].
  destruct (fix_is_Fin p s c e) as (c' & e' & ->). reflexivity.
Qed.

(** The rounded coefficient has at most [p] digits and is not zero. *)
Lemma fix_coeff p s c e c' e' :
  1 <= p -> fix_ p (Fin s c e) = Fin s c' e' ->
  ndigits c' <= p /\ (c <> 0%N -> c' <> 0%N).
Proof.
  intros Hp Hfix.
  destruct (N.eq_dec c 0) as [-> | Hc].
  { rewrite fix_zero in Hfix. inversion Hfix; subst. rewrite ndigits_0. split; [lia | tauto]. }
  destruct (Z.le_gt_cases (ndigits c) p) as [Hle | Hgt].
  { rewrite fix_fits in Hfix by assumption. inversion Hfix; subst. tauto. }
  rewrite fix_rounds in Hfix by lia. cbv zeta in Hfix.
  pose proof (round_half_even_range c (ndigits c - p)) as Hr.
  pose proof (div_pow10_bounds c (ndigits c - p) Hc ltac:(lia)) as Hq.
  replace (ndigits c - 1 - (ndigits c - p)) with (p - 1) in Hq by lia.
  replace (ndigits c - (ndigits c - p)) with p in Hq by lia.
  pose proof (pow10_pos (p - 1)) as Hpos.
  set (coeff := round_half_even c (ndigits c - p)) in *.
  destruct (Z.ltb_spec p (ndigits coeff)) as [Hbig | Hsmall]; inversion Hfix; subst; clear Hfix.
  - assert (pow10 p <= coeff)%N as Hge.
    { destruct (N.le_gt_cases (pow10 p) coeff) as [|Hlt]; [assumption | exfalso].
      destruct (ndigits_spec coeff) as (_ & _ & H3).
      assert (coeff <> 0%N) as Hnz by lia. specialize (H3 Hnz).
      pose proof (pow10_le p (ndigits coeff - 1) ltac:(lia)). lia. }
    assert (coeff = pow10 p) as -> by lia.
    assert (pow10 p / 10 = pow10 (p - 1))%N as ->.
    { replace (pow10 p) with (pow10 ((p - 1) + 1)) by (f_equal; lia).
      rewrite pow10_succ by lia. rewrite N.mul_comm. apply N.div_mul. discriminate. }
    split; [| lia].
    rewrite (ndigits_unique (pow10 (p - 1)) p); try lia.
  - split; [assumption | lia].
Qed.

End RoundingFacts.


(** *** Values and the comparison [==] *)

Section ValueFacts.

Lemma ten_nonzero : ~ (inject_Z 10 == 0)%Q.
Proof. discriminate. Qed.

Lemma Qpow10_nonzero e : ~ ((inject_Z 10) ^ e == 0)%Q.
Proof. apply Qpower_not_0, ten_nonzero. Qed.

(** A value can be rewritten at any smaller exponent. *)
Lemma dec_value_shift s c e e' :
  e' <= e ->
  (dec_value (Fin s c e) == inject_Z (signed s c * 10 ^ (e - e')) * (inject_Z 10) ^ e')%Q.
Proof.
  intros H. cbn [dec_value].
  replace e with ((e - e') + e') at 1 by lia.
  rewrite Qpower_plus by apply ten_nonzero.
  rewrite inject_Z_mult, Zpower_Qpower by lia.
  ring.
Qed.

(** [==] on finite decimals is equality of values. *)
Lemma dec_eqb_value s1 c1 e1 s2 c2 e2 :
  dec_eqb (Fin s1 c1 e1) (Fin s2 c2 e2) = true <->
  (dec_value (Fin s1 c1 e1) == dec_value (Fin s2 c2 e2))%Q.
Proof.
  cbn [dec_eqb]. cbv zeta.
  rewrite (dec_value_shift s1 c1 e1 (Z.min e1 e2)) by lia.
  rewrite (dec_value_shift s2 c2 e2 (Z.min e1 e2)) by lia.
  rewrite Qmult_inj_r by apply Qpow10_nonzero.
  rewrite inject_Z_injective. apply Z.eqb_eq.
Qed.

Lemma dec_eqb_Fin a b : dec_eqb a b = true -> is_nan a = false /\ is_nan b = false.
Proof. destruct a, b; cbn; intros H; try discriminate; auto. Qed.

Lemma dec_eqb_iff a b :
  dec_eqb a b = true <->
  is_nan a = false /\ is_nan b = false /\ (dec_value a == dec_value b)%Q.
Proof.
  destruct a as [s1 c1 e1|], b as [s2 c2 e2|]; cbn [is_nan].
  - rewrite dec_eqb_value. tauto.
  - cbn [dec_eqb]. intuition discriminate.
  - cbn [dec_eqb]. intuition discriminate.
  - cbn [dec_eqb]. intuition discriminate.
Qed.

Lemma dec_eqb_refl a : is_nan a = false -> dec_eqb a a = true.
Proof. intros H. apply dec_eqb_iff. repeat split; auto; reflexivity. Qed.

Lemma dec_eqb_sym a b : dec_eqb a b = dec_eqb b a.
Proof.
  destruct a, b; cbn [dec_eqb]; try reflexivity.
  rewrite Z.min_comm. apply Z.eqb_sym.
Qed.

Lemma dec_eqb_trans a b c :
  dec_eqb a b = true -> dec_eqb b c = true -> dec_eqb a c = true.
Proof.
  rewrite !dec_eqb_iff. intros (Ha & Hb & Hab) (_ & Hc & Hbc).
  repeat split; auto. rewrite Hab. exact Hbc.
Qed.

Lemma dec_eqb_nan_l b : dec_eqb NaN b = false.
Proof. reflexivity. Qed.

Lemma dec_eqb_nan_r a : dec_eqb a NaN = false.
Proof. destruct a; reflexivity. Qed.

(** Structural reading of [==] on finite decimals. *)
Lemma signed_zero s c : signed s c = 0 <-> c = 0%N.
Proof. unfold signed. destruct s; lia. Qed.

Lemma signed_scale s c j : 0 <= j -> signed s c * 10 ^ j = signed s (c * pow10 j).
Proof.
  intros Hj. unfold signed. destruct s; rewrite N2Z.inj_mul, pow10_Z by assumption; ring.
Qed.

Lemma signed_inj s1 c1 s2 c2 :
  signed s1 c1 = signed s2 c2 -> c1 = c2 /\ (c1 <> 0%N -> s1 = s2).
Proof. unfold signed. destruct s1, s2; intros H; split; try lia; intros; try reflexivity; lia. Qed.

Lemma dec_eqb_cases s1 c1 e1 s2 c2 e2 :
  e1 <= e2 ->
  (dec_eqb (Fin s1 c1 e1) (Fin s2 c2 e2) = true <->
   c1 = (c2 * pow10 (e2 - e1))%N /\ (c2 <> 0%N -> s1 = s2)).
Proof.
  intros Hle. cbn [dec_eqb]. cbv zeta. rewrite Z.min_l by assumption.
  rewrite Z.sub_diag, Z.mul_1_r, signed_scale by lia. rewrite Z.eqb_eq.
  pose proof (pow10_pos (e2 - e1)) as Hp.
  split.
  - intros H. apply signed_inj in H. destruct H as [H1 H2]. split; [assumption |].
    intros Hc. apply H2. subst c1. nia.
  - intros [-> Hs].
    destruct (N.eq_dec c2 0) as [-> | Hc]; [| rewrite Hs by assumption; reflexivity].
    cbn. unfold signed. destruct s1, s2; reflexivity.
Qed.

End ValueFacts.


(** *** [Decimal.normalize]: canonical forms, idempotence, hashes *)

Section NormalizeFacts.

Lemma strip_zeros_spec fuel : forall c e c' e',
  strip_zeros fuel c e = (c', e') ->
  e <= e' /\ c = (c' * pow10 (e' - e))%N.
Proof.
  induction fuel as [|f IH]; intros c e c' e' H; cbn [strip_zeros] in H.
  - inversion H; subst. rewrite Z.sub_diag. cbn. lia.
  - destruct (N.eqb_spec (c mod 10) 0) as [Hmod | Hmod].
    + apply IH in H. destruct H as [Hle Hc]. split; [lia |].
      replace (e' - e) with ((e' - (e + 1)) + 1) by lia.
      rewrite pow10_succ by lia.
      pose proof (N.div_mod c 10 ltac:(discriminate)) as Hdm. nia.
    + inversion H; subst. rewrite Z.sub_diag. cbn. lia.
Qed.

Lemma strip_zeros_canonical fuel : forall c e c' e',
  c <> 0%N -> (c < 2 ^ N.of_nat fuel)%N ->
  strip_zeros fuel c e = (c', e') -> (c' mod 10)%N <> 0%N.
Proof.
  induction fuel as [|f IH]; intros c e c' e' Hc Hlt H; cbn [strip_zeros] in H.
  - cbn in Hlt. lia.
  - destruct (N.eqb_spec (c mod 10) 0) as [Hmod | Hmod].
    + apply IH in H; [assumption | |].
      * pose proof (N.div_mod c 10 ltac:(discriminate)) as Hdm. lia.
      * rewrite Nat2N.inj_succ, N.pow_succ_r' in Hlt.
        pose proof (N.div_mod c 10 ltac:(discriminate)) as Hdm. lia.
    + inversion H; subst. assumption.
Qed.


Lemma strip_zeros_deq fuel s c e c' e' :
  strip_zeros fuel c e = (c', e') -> dec_eqb (Fin s c e) (Fin s c' e') = true.
Proof.
  intros H. apply strip_zeros_spec in H. destruct H as [Hle Hc].
  apply dec_eqb_cases; auto.
Qed.

(** Rounding only depends on the value: a coefficient padded with [j] zeros
    rounds to the same number. *)
Lemma fix_scale p s c e j :
  c <> 0%N -> 0 <= j ->
  dec_eqb (fix_ p (Fin s (c * pow10 j) (e - j))) (fix_ p (Fin s c e)) = true.
Proof.
  intros Hc Hj.
  pose proof (pow10_pos j) as Hpj.
  assert (c * pow10 j <> 0)%N as Hcj by lia.
  pose proof (ndigits_scale c j Hc Hj) as Hnd.
  destruct (ndigits_spec c) as (Hn1 & _ & _).
  destruct (Z.le_gt_cases (ndigits c) p) as [Hle | Hgt].
  - rewrite (fix_fits p s c e) by assumption.
    destruct (Z.le_gt_cases (ndigits c + j) p) as [Hle' | Hgt'].
    + rewrite fix_fits by lia.
      apply dec_eqb_cases; [lia |]. split; [f_equal; f_equal; lia | reflexivity].
    + rewrite fix_rounds by lia. cbv zeta. rewrite Hnd.
      set (k := ndigits c + j - p).
      assert (c * pow10 j = c * pow10 (j - k) * pow10 k)%N as Hsplit.
      { rewrite <- N.mul_assoc, <- pow10_add by lia. do 2 f_equal. lia. }
      rewrite round_half_even_exact.
      2:{ rewrite Hsplit. apply N.Div0.mod_mul. }
      rewrite Hsplit, N.div_mul by (pose proof (pow10_pos k); lia).
      rewrite ndigits_scale by lia.
      destruct (Z.ltb_spec p (ndigits c + (j - k))) as [Hbad | _]; [lia |].
      apply dec_eqb_cases; [lia |]. split; [do 2 f_equal; lia | reflexivity].
  - rewrite (fix_rounds p s c e) by lia.
    rewrite fix_rounds by lia. cbv zeta. rewrite Hnd.
    replace (ndigits c + j - p) with ((ndigits c - p) + j) by lia.
    rewrite round_half_even_scale by lia.
    replace (ndigits c + j + (e - j) - p) with (ndigits c + e - p) by lia.
    apply dec_eqb_refl.
    destruct (p <? ndigits (round_half_even c (ndigits c - p))); reflexivity.
Qed.

Lemma fix_deq p a b : dec_eqb a b = true -> dec_eqb (fix_ p a) (fix_ p b) = true.
Proof.
  assert (forall s1 c1 e1 s2 c2 e2, e1 <= e2 ->
            dec_eqb (Fin s1 c1 e1) (Fin s2 c2 e2) = true ->
            dec_eqb (fix_ p (Fin s1 c1 e1)) (fix_ p (Fin s2 c2 e2)) = true) as Hord.
  { intros s1 c1 e1 s2 c2 e2 Hle H.
    pose proof H as H'. apply dec_eqb_cases in H'; [| assumption].
    destruct H' as [Hc Hs].
    destruct (N.eq_dec c2 0) as [-> | Hc2].
    - subst c1. cbn [N.mul]. rewrite !fix_zero. cbn [N.mul] in H. exact H.
    - rewrite (Hs Hc2), Hc.
      pose proof (fix_scale p s2 c2 e2 (e2 - e1) Hc2 ltac:(lia)) as Hfs.
      replace (e2 - (e2 - e1)) with e1 in Hfs by lia. exact Hfs. }
  intros H.
  destruct a as [s1 c1 e1|], b as [s2 c2 e2|]; try discriminate H.
  destruct (Z.le_ge_cases e1 e2) as [Hle | Hge].
  - apply Hord; assumption.
  - rewrite dec_eqb_sym. apply Hord; [assumption |]. rewrite dec_eqb_sym. exact H.
Qed.

Lemma normalize_is_Fin p s c e : exists c' e', dec_normalize p (Fin s c e) = Fin s c' e'.
Proof.
  unfold dec_normalize. destruct (fix_is_Fin p s c e) as (c1 & e1 & ->).
  destruct (c1 =? 0)%N; [eauto |].
  destruct (strip_zeros _ c1 e1) as [c' e']. eauto.
Qed.

Lemma normalize_nan_iff p d : is_nan (dec_normalize p d) = is_nan d.
Proof.
  destruct d as [s c e|]; [| reflexivity].
  destruct (normalize_is_Fin p s c e) as (c' & e' & ->). reflexivity.
Qed.

Lemma normalize_fix_deq p s c e :
  dec_eqb (dec_normalize p (Fin s c e)) (fix_ p (Fin s c e)) = true.
Proof.
  unfold dec_normalize. destruct (fix_is_Fin p s c e) as (c1 & e1 & ->).
  destruct (N.eqb_spec c1 0) as [-> | Hc].
  - destruct (Z.le_ge_cases 0 e1).
    + apply dec_eqb_cases; [assumption |]. split; [reflexivity | congruence].
    + rewrite dec_eqb_sym. apply dec_eqb_cases; [assumption |]. split; [reflexivity | congruence].
  - destruct (strip_zeros _ c1 e1) as [c' e'] eqn:Hs.
    rewrite dec_eqb_sym. eapply strip_zeros_deq; eassumption.
Qed.

(** [normalize] only depends on the value. *)
Lemma normalize_deq p a b :
  dec_eqb a b = true -> dec_eqb (dec_normalize p a) (dec_normalize p b) = true.
Proof.
  intros H. pose proof (fix_deq p a b H) as Hf.
  destruct a as [s1 c1 e1|], b as [s2 c2 e2|]; try discriminate H.
  eapply dec_eqb_trans; [apply normalize_fix_deq |].
  eapply dec_eqb_trans; [exact Hf |].
  rewrite dec_eqb_sym. apply normalize_fix_deq.
Qed.

Lemma normalize_canonical p d : canonical (dec_normalize p d).
Proof.
  destruct d as [s c e|]; [| exact I].
  unfold dec_normalize. destruct (fix_is_Fin p s c e) as (c1 & e1 & ->).
  destruct (N.eqb_spec c1 0) as [-> | Hc]; [reflexivity |].
  destruct (strip_zeros _ c1 e1) as [c' e'] eqn:Hs.
  assert (c1 < 2 ^ N.of_nat (N.to_nat (N.size c1)))%N as Hfuel
    by (rewrite N2Nat.id; apply N.size_gt).
  pose proof (strip_zeros_canonical _ _ _ _ _ Hc Hfuel Hs) as Hcan.
  cbn [canonical]. destruct (N.eqb_spec c' 0) as [-> | _]; [cbn in Hcan; congruence | assumption].
Qed.

Lemma normalize_digits p s c e s' c' e' :
  1 <= p -> dec_normalize p (Fin s c e) = Fin s' c' e' -> ndigits c' <= p.
Proof.
  intros Hp. unfold dec_normalize.
  destruct (fix_ p (Fin s c e)) as [s1 c1 e1|] eqn:Hfix; [| discriminate].
  destruct (fix_is_Fin p s c e) as (c2 & e2 & Hfix'). rewrite Hfix in Hfix'.
  inversion Hfix'; subst s1 c2 e2.
  destruct (fix_coeff p s c e c1 e1 Hp Hfix) as [Hd _].
  destruct (N.eqb_spec c1 0) as [-> | Hc].
  - intros H. inversion H; subst. rewrite ndigits_0. lia.
  - destruct (strip_zeros _ c1 e1) as [c3 e3] eqn:Hs. intros H. inversion H; subst.
    apply strip_zeros_spec in Hs. destruct Hs as [Hle Hc1].
    pose proof (pow10_pos (e' - e1)).
    pose proof (ndigits_mono c' c1 ltac:(nia)). lia.
Qed.



(** Two canonical decimals that compare equal are the same triple, up to
    the sign of zero. *)
Lemma canonical_deq s1 c1 e1 s2 c2 e2 :
  canonical (Fin s1 c1 e1) -> canonical (Fin s2 c2 e2) ->
  dec_eqb (Fin s1 c1 e1) (Fin s2 c2 e2) = true ->
  c1 = c2 /\ e1 = e2 /\ (c1 <> 0%N -> s1 = s2).
Proof.
  assert (forall s1 c1 e1 s2 c2 e2, e1 <= e2 ->
    canonical (Fin s1 c1 e1) -> canonical (Fin s2 c2 e2) ->
    dec_eqb (Fin s1 c1 e1) (Fin s2 c2 e2) = true ->
    c1 = c2 /\ e1 = e2 /\ (c1 <> 0%N -> s1 = s2)) as Hord.
  { clear. intros s1 c1 e1 s2 c2 e2 Hle H1 H2 H.
    apply dec_eqb_cases in H; [| assumption]. destruct H as [Hc Hs].
    cbn [canonical] in H1, H2.
    destruct (N.eqb_spec c2 0) as [-> | Hc2].
    - cbn [N.mul] in Hc. subst c1. cbn in H1, H2. subst e1 e2.
      repeat split; congruence.
    - assert (e1 = e2) as ->.
      { destruct (Z.eq_dec e1 e2) as [|Hne]; [assumption | exfalso].
        assert (c1 <> 0)%N by (pose proof (pow10_pos (e2 - e1)); nia).
        destruct (N.eqb_spec c1 0) as [|_]; [contradiction |].
        apply H1. subst c1.
        replace (e2 - e1) with ((e2 - e1 - 1) + 1) by lia.
        rewrite pow10_succ by lia.
        replace (c2 * (10 * pow10 (e2 - e1 - 1)))%N with (c2 * pow10 (e2 - e1 - 1) * 10)%N by lia.
        apply N.Div0.mod_mul. }
      rewrite Z.sub_diag in Hc. cbn in Hc. rewrite N.mul_1_r in Hc. subst c1.
      repeat split; auto. }
  intros H1 H2 H. destruct (Z.le_ge_cases e1 e2) as [Hle | Hge].
  - apply Hord; assumption.
  - rewrite dec_eqb_sym in H. destruct (Hord _ _ _ _ _ _ Hge H2 H1 H) as (Hc & He & Hs).
    subst. repeat split; auto. intros Hnz. symmetry. auto.
Qed.

Lemma canonical_deq_hash hash_nan a b :
  canonical a -> canonical b -> dec_eqb a b = true ->
  hash_Decimal hash_nan a = hash_Decimal hash_nan b.
Proof.
  destruct a as [s1 c1 e1|], b as [s2 c2 e2|]; intros Ha Hb H; try discriminate H.
  destruct (canonical_deq _ _ _ _ _ _ Ha Hb H) as (-> & -> & Hs).
  destruct (N.eq_dec c2 0) as [-> | Hc]; [| rewrite (Hs Hc); reflexivity].
  unfold hash_Decimal. cbn [N.eqb Z.of_N Z.mul]. rewrite !orb_true_r. reflexivity.
Qed.

End NormalizeFacts.

(** ** Facts about the program *)


(** *** [__eq__], [__hash__] and [is_symmetry_line] *)

Section EqualityFacts.
Variable prec : Z.
Variable hash_nan : Z.
Variable hash_str : string -> Z.

Lemma normalized_eqb_refl d :
  is_nan d = false -> dec_eqb (normalize prec d) (normalize prec d) = true.
Proof. intros H. apply dec_eqb_refl. unfold normalize. rewrite normalize_nan_iff. exact H. Qed.

Lemma normalized_eqb_finite a b :
  dec_eqb (normalize prec a) (normalize prec b) = true -> is_nan a = false /\ is_nan b = false.
Proof.
  intros H. apply dec_eqb_Fin in H. unfold normalize in H.
  rewrite !normalize_nan_iff in H. exact H.
Qed.

Lemma normalized_eqb_hash a b :
  dec_eqb (normalize prec a) (normalize prec b) = true ->
  hash_Decimal hash_nan (normalize prec a) = hash_Decimal hash_nan (normalize prec b).
Proof. apply canonical_deq_hash; apply normalize_canonical. Qed.


Lemma Point_eq_sym a b : Point_eq prec a b = Point_eq prec b a.
Proof.
  unfold Point_eq.
  rewrite (dec_eqb_sym (normalize prec (Point_x a))), (dec_eqb_sym (normalize prec (Point_y a))).
  reflexivity.
Qed.


Lemma Point_eq_finite a b : Point_eq prec a b = true -> finite_point a /\ finite_point b.
Proof.
  unfold Point_eq, finite_point. rewrite andb_true_iff. intros [H1 H2].
  apply normalized_eqb_finite in H1, H2. tauto.
Qed.

Lemma Point_eq_hash a b :
  Point_eq prec a b = true ->
  Point_hash prec hash_nan hash_str a = Point_hash prec hash_nan hash_str b.
Proof.
  unfold Point_eq, Point_hash. rewrite andb_true_iff. intros [H1 H2].
  cbn [map hash_of_item].
  rewrite (normalized_eqb_hash _ _ H1), (normalized_eqb_hash _ _ H2). reflexivity.
Qed.

Lemma Line_eq_sym a b : Line_eq prec a b = Line_eq prec b a.
Proof.
  unfold Line_eq. rewrite (andb_comm (is_vertical a)).
  destruct (is_vertical b && is_vertical a).
  - rewrite (dec_eqb_sym (normalize prec (Line_x b))).
    destruct (dec_eqb (normalize prec (Line_x a)) (normalize prec (Line_x b))) eqn:E.
    + apply normalized_eqb_finite in E. destruct E as [-> ->]. reflexivity.
    + rewrite !andb_false_r. reflexivity.
  - rewrite (dec_eqb_sym (normalize prec (Line_slope a))),
            (dec_eqb_sym (normalize prec (Line_intercept a))).
    reflexivity.
Qed.

(** A true [Line.__eq__] has one of two shapes. *)
Lemma Line_eq_true a b :
  Line_eq prec a b = true <->
  (is_vertical a = true /\ is_vertical b = true /\
   dec_eqb (normalize prec (Line_x a)) (normalize prec (Line_x b)) = true)
  \/
  (is_vertical a = false /\ is_vertical b = false /\
   dec_eqb (normalize prec (Line_slope a)) (normalize prec (Line_slope b)) = true /\
   dec_eqb (normalize prec (Line_intercept a)) (normalize prec (Line_intercept b)) = true).
Proof.
  unfold Line_eq, is_vertical.
  split.
  - destruct (is_nan (Line_slope a) || is_nan (Line_intercept a)) eqn:Va,
             (is_nan (Line_slope b) || is_nan (Line_intercept b)) eqn:Vb; cbn [andb].
    + rewrite andb_true_iff. intros [_ H]. left. auto.
    + rewrite andb_true_iff. intros [H1 H2]. exfalso.
      apply normalized_eqb_finite in H1, H2. destruct H1 as [H1 _], H2 as [H2 _].
      rewrite H1, H2 in Va. discriminate.
    + rewrite andb_true_iff. intros [H1 H2]. exfalso.
      apply normalized_eqb_finite in H1, H2. destruct H1 as [_ H1], H2 as [_ H2].
      rewrite H1, H2 in Vb. discriminate.
    + rewrite andb_true_iff. intros [H1 H2]. right. auto.
  - intros [(Va & Vb & H) | (Va & Vb & H1 & H2)]; rewrite Va, Vb; cbn [andb].
    + rewrite H. apply normalized_eqb_finite in H. destruct H as [H _]. rewrite H. reflexivity.
    + rewrite H1, H2. reflexivity.
Qed.


Lemma Line_eq_refl l :
  (if is_vertical l then is_nan (Line_x l) = false else True) -> Line_eq prec l l = true.
Proof.
  intros H. apply Line_eq_true. destruct (is_vertical l) eqn:V.
  - left. repeat split; auto. apply normalized_eqb_refl. exact H.
  - right. unfold is_vertical in V. apply orb_false_iff in V. destruct V.
    repeat split; auto; apply normalized_eqb_refl; assumption.
Qed.

(** On lines whose unused fields hold NaN, the hash agrees with equality. *)
Lemma Line_eq_hash a b :
  shaped a -> shaped b -> Line_eq prec a b = true ->
  Line_hash prec hash_nan hash_str a = Line_hash prec hash_nan hash_str b.
Proof.
  intros Sa Sb H. apply Line_eq_true in H.
  unfold shaped, is_vertical in *. unfold Line_hash, nan_or_normalized.
  destruct H as [(Va & Vb & H) | (Va & Vb & H1 & H2)].
  - pose proof (normalized_eqb_hash _ _ H) as Hh.
    apply normalized_eqb_finite in H. destruct H as [Xa Xb].
    destruct Sa as [Sa | [Sa1 Sa2]]; [congruence |].
    destruct Sb as [Sb | [Sb1 Sb2]]; [congruence |].
    rewrite Sa1, Sa2, Sb1, Sb2, Xa, Xb. cbn [negb map hash_of_item]. rewrite Hh. reflexivity.
  - pose proof (normalized_eqb_hash _ _ H1) as Hh1.
    pose proof (normalized_eqb_hash _ _ H2) as Hh2.
    apply orb_false_iff in Va, Vb. destruct Va as [Va1 Va2], Vb as [Vb1 Vb2].
    destruct Sa as [Sa | [Sa1 Sa2]]; [| congruence].
    destruct Sb as [Sb | [Sb1 Sb2]]; [| congruence].
    rewrite Va1, Va2, Vb1, Vb2, Sa, Sb. cbn [negb map hash_of_item]. rewrite Hh1, Hh2. reflexivity.
Qed.

Lemma from_points_shaped p0 p1 : shaped (from_points prec p0 p1).
Proof.
  unfold from_points, shaped.
  destruct (negb _); cbn; auto.
Qed.

(** [is_symmetry_line], as a statement about the point list. *)
Lemma scan_for_match_true f1 pts :
  scan_for_match prec f1 pts = true <-> exists q, In q pts /\ Point_eq prec q f1 = true.
Proof.
  induction pts as [|q rest IH]; cbn [scan_for_match].
  - split; [discriminate | intros (q & [] & _)].
  - destruct (Point_eq prec q f1) eqn:E.
    + split; [intros _; exists q; split; [left; reflexivity | assumption] | reflexivity].
    + rewrite IH. split.
      * intros (q' & Hin & Hq). exists q'. split; [right |]; assumption.
      * intros (q' & [-> | Hin] & Hq); [congruence | exists q'; auto].
Qed.

Lemma fold_each_true self all todo :
  fold_each prec self all todo = true <->
  forall p, In p todo ->
    Point_eq prec (folded_point prec self p) p = true \/
    exists q, In q all /\ Point_eq prec q (folded_point prec self p) = true.
Proof.
  induction todo as [|p rest IH]; cbn [fold_each].
  - split; [intros _ p [] | reflexivity].
  - destruct (Point_eq prec (folded_point prec self p) p) eqn:E.
    + rewrite IH. split.
      * intros H p' [<- | Hin]; [left; assumption | apply H; assumption].
      * intros H p' Hin. apply H. right. assumption.
    + destruct (scan_for_match prec (folded_point prec self p) all) eqn:S.
      * rewrite IH. apply scan_for_match_true in S. split.
        -- intros H p' [<- | Hin]; [right; assumption | apply H; assumption].
        -- intros H p' Hin. apply H. right. assumption.
      * split; [discriminate |]. intros H. exfalso.
        destruct (H p (or_introl eq_refl)) as [H' | H']; [congruence |].
        apply scan_for_match_true in H'. congruence.
Qed.

Lemma is_symmetry_line_true self pts :
  is_symmetry_line prec self pts = true <-> folds_into prec self pts.
Proof.
  unfold is_symmetry_line, folds_into. rewrite fold_each_true. split; intros H p Hin.
  - destruct (H p Hin) as [Hself | Hother]; [| assumption].
    exists p. split; [assumption |]. rewrite Point_eq_sym. assumption.
  - right. apply H. assumption.
Qed.

End EqualityFacts.


(** *** The candidate generator *)

Section GeneratorFacts.
Variable prec : Z.
Variable hash_nan : Z.
Variable hash_str : string -> Z.


Lemma ForallOrdPairs_snoc {A} (R : A -> A -> Prop) l x :
  ForallOrdPairs R l -> Forall (fun a => R a x) l -> ForallOrdPairs R (l ++ [x]).
Proof.
  induction 1 as [|a l Ha Hl IH]; intros Hx; cbn.
  - constructor; constructor.
  - inversion Hx; subst. constructor.
    + apply Forall_app. split; [assumption | constructor; [assumption | constructor]].
    + apply IH. assumption.
Qed.

Lemma set_contains_false {K} (eq : K -> K -> bool) h p s :
  set_contains eq h p s = false ->
  forall e, In e s -> fst e = h -> eq (snd e) p = false.
Proof.
  unfold set_contains. intros H e Hin Hh.
  destruct (eq (snd e) p) eqn:E; [| reflexivity].
  assert (existsb (fun e => (fst e =? h) && eq (snd e) p) s = true) as Ht.
  { apply existsb_exists. exists e. split; [assumption |].
    rewrite E, andb_true_r. apply Z.eqb_eq. assumption. }
  congruence.
Qed.

Lemma set_contains_true {K} (eq : K -> K -> bool) h p s :
  set_contains eq h p s = true -> exists e, In e s /\ eq (snd e) p = true.
Proof.
  unfold set_contains. intros H. apply existsb_exists in H.
  destruct H as (e & Hin & He). apply andb_true_iff in He. exists e. tauto.
Qed.

Lemma gen_inv_init T cent : gen_inv prec hash_nan hash_str T cent ([], []).
Proof. split; cbn; try tauto. constructor. Qed.

Lemma offer_inv T cent st q :
  gen_inv prec hash_nan hash_str T cent st -> T q ->
  gen_inv prec hash_nan hash_str T cent (offer prec hash_nan hash_str st (from_points prec cent q)).
Proof.
  intros [Hv Hy Hs Hd] Hq. destruct st as [visited yielded]. cbn [fst snd] in *.
  unfold offer. cbv zeta.
  destruct (set_contains (Line_eq prec) _ _ visited) eqn:Hc; cbn [negb].
  - split; assumption.
  - split; cbn [fst snd].
    + intros e [<- | Hin]; cbn [fst snd].
      * split; [reflexivity | apply in_or_app; right; left; reflexivity].
      * destruct (Hv e Hin). split; [assumption | apply in_or_app; left; assumption].
    + intros l Hin. apply in_app_or in Hin. destruct Hin as [Hin | [<- | []]].
      * right. apply Hy. assumption.
      * left. reflexivity.
    + intros l Hin. apply in_app_or in Hin. destruct Hin as [Hin | [<- | []]].
      * apply Hs. assumption.
      * exists q. split; [assumption | reflexivity].
    + apply ForallOrdPairs_snoc; [assumption |].
      apply Forall_forall. intros v Hin.
      apply not_true_is_false. intros E.
      assert (Line_hash prec hash_nan hash_str v
              = Line_hash prec hash_nan hash_str (from_points prec cent q)) as Hh.
      { apply Line_eq_hash; [| apply from_points_shaped | assumption].
        destruct (Hs v Hin) as (q' & _ & ->). apply from_points_shaped. }
      pose proof (set_contains_false (Line_eq prec) _ _ _ Hc
                    (Line_hash prec hash_nan hash_str v, v) (Hy v Hin) Hh) as Hf.
      cbn [snd] in Hf. congruence.
Qed.

Lemma offer_all_inv {X} T cent (f : X -> Point) xs : forall st,
  gen_inv prec hash_nan hash_str T cent st -> (forall x, In x xs -> T (f x)) ->
  gen_inv prec hash_nan hash_str T cent
    (fold_left (fun st x => offer prec hash_nan hash_str st (from_points prec cent (f x))) xs st).
Proof.
  induction xs as [|x xs IH]; intros st Hst Hxs; cbn [fold_left]; [assumption |].
  apply IH.
  - apply offer_inv; [assumption | apply Hxs; left; reflexivity].
  - intros y Hy. apply Hxs. right. assumption.
Qed.

Lemma pair_loop_inv all cent pts : forall st,
  incl pts all -> gen_inv prec hash_nan hash_str (candidate_target prec all) cent st ->
  gen_inv prec hash_nan hash_str (candidate_target prec all) cent
    (pair_loop prec hash_nan hash_str cent pts st).
Proof.
  induction pts as [|p0 rest IH]; intros st Hincl Hst; cbn [pair_loop]; [assumption |].
  apply IH.
  - intros x Hx. apply Hincl. right. assumption.
  - apply (offer_all_inv _ cent (fun p1 => bp_point (BisectionPoint_init prec p0 p1)));
      [assumption |].
    intros p1 Hp1. right. exists p0, p1. repeat split.
    + apply Hincl. left. reflexivity.
    + apply Hincl. right. assumption.
Qed.

Lemma vertex_loop_inv all cent pts st :
  incl pts all -> gen_inv prec hash_nan hash_str (candidate_target prec all) cent st ->
  gen_inv prec hash_nan hash_str (candidate_target prec all) cent
    (vertex_loop prec hash_nan hash_str cent pts st).
Proof.
  intros Hincl Hst. unfold vertex_loop.
  apply (offer_all_inv _ cent (fun p => p)); [assumption |].
  intros p Hp. left. apply Hincl. assumption.
Qed.

Lemma candidates_inv self :
  (3 <= List.length (points self))%nat ->
  exists st,
    _candidate_symmetry_lines prec hash_nan hash_str self = snd st /\
    gen_inv prec hash_nan hash_str (candidate_target prec (points self)) (_centroid prec self) st.
Proof.
  intros Hlen. unfold _candidate_symmetry_lines.
  destruct (Nat.ltb_spec (List.length (points self)) 3) as [|_]; [lia |].
  eexists. split; [reflexivity |].
  apply vertex_loop_inv; [apply incl_refl |].
  apply pair_loop_inv; [apply incl_refl |].
  apply gen_inv_init.
Qed.

Lemma candidates_short self :
  (List.length (points self) < 3)%nat ->
  _candidate_symmetry_lines prec hash_nan hash_str self = [].
Proof.
  intros Hlen. unfold _candidate_symmetry_lines.
  destruct (Nat.ltb_spec (List.length (points self)) 3) as [_|]; [reflexivity | lia].
Qed.

Lemma candidates_distinct self :
  ForallOrdPairs (fun a b => Line_eq prec a b = false)
    (_candidate_symmetry_lines prec hash_nan hash_str self).
Proof.
  destruct (Nat.lt_ge_cases (List.length (points self)) 3) as [Hlt | Hge].
  - rewrite candidates_short by assumption. constructor.
  - destruct (candidates_inv self Hge) as (st & -> & Hinv). apply Hinv.
Qed.

Lemma candidates_source self line :
  In line (_candidate_symmetry_lines prec hash_nan hash_str self) ->
  exists q, candidate_target prec (points self) q /\
            line = from_points prec (_centroid prec self) q.
Proof.
  destruct (Nat.lt_ge_cases (List.length (points self)) 3) as [Hlt | Hge].
  - rewrite candidates_short by assumption. intros [].
  - destruct (candidates_inv self Hge) as (st & -> & Hinv). apply Hinv.
Qed.

Lemma find_spec self line :
  In line (find prec hash_nan hash_str self) <->
  In line (_candidate_symmetry_lines prec hash_nan hash_str self) /\
  is_symmetry_line prec line (points self) = true.
Proof.
  unfold find, find_all. rewrite in_map_iff. split.
  - intros ([b l] & <- & Hin). apply filter_In in Hin. destruct Hin as [Hin Hb].
    apply in_map_iff in Hin. destruct Hin as (l' & Heq & Hin). inversion Heq; subst.
    cbn in *. auto.
  - intros [Hin Hs]. exists (true, line). split; [reflexivity |].
    apply filter_In. split; [| reflexivity].
    apply in_map_iff. exists line. rewrite Hs. auto.
Qed.

End GeneratorFacts.


(** *** NaN propagation, [from_points], [contains_point], vertical folds *)

Section ArithmeticShape.
Variable prec : Z.

Lemma dec_add_nan a b : is_nan (dec_add prec a b) = is_nan a || is_nan b.
Proof.
  destruct a as [s1 c1 e1|], b as [s2 c2 e2|]; try reflexivity.
  unfold dec_add. rewrite fix_nan_iff. reflexivity.
Qed.

Lemma dec_neg_nan a : is_nan (dec_neg a) = is_nan a.
Proof. destruct a; reflexivity. Qed.

Lemma dec_sub_nan a b : is_nan (dec_sub prec a b) = is_nan a || is_nan b.
Proof. unfold dec_sub. rewrite dec_add_nan, dec_neg_nan. reflexivity. Qed.

Lemma dec_mul_nan a b : is_nan (dec_mul prec a b) = is_nan a || is_nan b.
Proof.
  destruct a as [s1 c1 e1|], b as [s2 c2 e2|]; try reflexivity.
  unfold dec_mul. rewrite fix_nan_iff. reflexivity.
Qed.

Lemma dec_div_nan a b : is_nan (dec_div prec a b) = is_nan a || is_nan b || is_zero b.
Proof.
  destruct a as [s1 c1 e1|], b as [s2 c2 e2|]; try reflexivity.
  unfold dec_div. cbn [is_nan is_zero orb].
  destruct (c2 =? 0)%N; [reflexivity |].
  destruct (c1 =? 0)%N; [apply fix_nan_iff |].
  destruct (if 0 <=? _ then _ else _) as [coeff remainder].
  destruct (remainder =? 0)%N.
  - destruct (strip_zeros _ coeff _) as [c' e']. apply fix_nan_iff.
  - apply fix_nan_iff.
Qed.

Lemma dec_of_int_0 : dec_of_int 0 = Fin false 0 0.
Proof. reflexivity. Qed.

Lemma dec_eqb_zero d : dec_eqb d (dec_of_int 0) = is_zero d.
Proof.
  destruct d as [s c e|]; [| reflexivity].
  rewrite dec_of_int_0. cbn [dec_eqb is_zero]. cbv zeta.
  change (signed false 0) with 0. rewrite Z.mul_0_l.
  assert (0 < 10 ^ (e - Z.min e 0)) by (apply Z.pow_pos_nonneg; lia).
  destruct (N.eqb_spec c 0) as [-> | Hc].
  - unfold signed. destruct s; reflexivity.
  - apply Z.eqb_neq. pose proof (signed_zero s c). nia.
Qed.

Lemma signed_neg s c : signed (negb s) c = - signed s c.
Proof. unfold signed. destruct s; cbn [negb]; lia. Qed.

(** A difference rounds to zero only when the operands are equal. *)
Lemma dec_sub_zero a b :
  1 <= prec -> is_zero (dec_sub prec a b) = true -> dec_eqb a b = true.
Proof.
  intros Hp. destruct a as [s1 c1 e1|], b as [s2 c2 e2|]; try discriminate.
  unfold dec_sub, dec_add. cbn [dec_neg]. cbv zeta.
  set (v := signed s1 c1 * 10 ^ (e1 - Z.min e1 e2) + signed (negb s2) c2 * 10 ^ (e2 - Z.min e1 e2)).
  destruct (fix_is_Fin prec (if v =? 0 then s1 && negb s2 else v <? 0) (Z.abs_N v) (Z.min e1 e2))
    as (c' & e' & Hfix).
  rewrite Hfix. cbn [is_zero]. intros Hz. apply N.eqb_eq in Hz. subst c'.
  destruct (fix_coeff _ _ _ _ _ _ Hp Hfix) as [_ Hnz].
  assert (Z.abs_N v = 0%N) as Hv by (destruct (N.eq_dec (Z.abs_N v) 0); [assumption | tauto]).
  cbn [dec_eqb]. cbv zeta. apply Z.eqb_eq.
  subst v. rewrite signed_neg in Hv. lia.
Qed.

Lemma contains_point_vertical self p :
  is_vertical self = true -> contains_point prec self p = false.
Proof.
  unfold is_vertical, contains_point. intros H.
  set (r := dec_add prec _ _).
  assert (is_nan r = true) as Hr.
  { subst r. rewrite dec_add_nan, dec_mul_nan. apply orb_true_iff in H.
    destruct H as [-> | ->]; rewrite ?orb_true_r; reflexivity. }
  destruct r; [discriminate | apply dec_eqb_nan_r].
Qed.

Lemma from_points_vertical p0 p1 :
  is_zero (dec_sub prec (Point_x p1) (Point_x p0)) = true ->
  from_points prec p0 p1 = mkLine NaN NaN (Point_x p1).
Proof. intros H. unfold from_points. rewrite dec_eqb_zero, H. reflexivity. Qed.

Lemma from_points_sloped p0 p1 :
  is_zero (dec_sub prec (Point_x p1) (Point_x p0)) = false ->
  from_points prec p0 p1 =
    let slope := dec_div prec (dec_sub prec (Point_y p1) (Point_y p0))
                              (dec_sub prec (Point_x p1) (Point_x p0)) in
    mkLine slope (dec_sub prec (Point_y p1) (dec_mul prec slope (Point_x p1))) NaN.
Proof. intros H. unfold from_points. rewrite dec_eqb_zero, H. reflexivity. Qed.

(** Under exact arithmetic a line through two points contains both. *)
Lemma from_points_contains_exact p0 p1 :
  finite_point p0 -> finite_point p1 ->
  is_zero (dec_sub prec (Point_x p1) (Point_x p0)) = false ->
  from_points_exact prec p0 p1 ->
  (contains_exact prec (from_points prec p0 p1) p0 ->
   contains_point prec (from_points prec p0 p1) p0 = true) /\
  (contains_exact prec (from_points prec p0 p1) p1 ->
   contains_point prec (from_points prec p0 p1) p1 = true).
Proof.
  intros [F0x F0y] [F1x F1y] Hden (Hx & Hy & Hd & Hm & Hi).
  rewrite from_points_sloped by assumption. cbv zeta.
  set (den := dec_sub prec (Point_x p1) (Point_x p0)) in *.
  set (num := dec_sub prec (Point_y p1) (Point_y p0)) in *.
  set (slope := dec_div prec num den) in *.
  set (icpt := dec_sub prec (Point_y p1) (dec_mul prec slope (Point_x p1))) in *.
  assert (is_nan slope = false) as Fs.
  { subst slope num den. rewrite dec_div_nan, !dec_sub_nan, F0x, F0y, F1x, F1y, Hden. reflexivity. }
  assert (is_nan icpt = false) as Fi.
  { subst icpt. rewrite dec_sub_nan, dec_mul_nan, Fs, F1x, F1y. reflexivity. }
  unfold exact_sub, exact_div, exact_mul in Hx, Hy, Hd, Hm, Hi.
  fold den in Hx. fold num in Hy. fold icpt in Hi.
  assert (dec_value slope * (dec_value (Point_x p1) - dec_value (Point_x p0))
          == dec_value (Point_y p1) - dec_value (Point_y p0))%Q as Hslope.
  { rewrite <- Hx, <- Hy. exact Hd. }
  split; intros [Hc1 Hc2]; unfold contains_point; cbn [Line_slope Line_intercept] in *;
    unfold exact_mul, exact_add in Hc1, Hc2;
    apply dec_eqb_iff; (split; [assumption |]);
    (split; [rewrite dec_add_nan, dec_mul_nan, Fs, Fi; rewrite ?F0x, ?F1x; reflexivity |]);
    rewrite Hc2, Hc1, Hi, Hm.
  - assert (dec_value (Point_y p0) ==
            dec_value (Point_y p1) - (dec_value (Point_y p1) - dec_value (Point_y p0)))%Q as ->
      by ring.
    rewrite <- Hslope. ring.
  - ring.
Qed.

(** The midpoint of a vertical line: folding across [x = a] a point whose
    abscissa is [a]. *)
Lemma folded_point_vertical self p :
  is_vertical self = true ->
  folded_point prec self p =
    mkPoint (dec_sub prec (dec_mul prec (dec_of_int 2) (Line_x self)) (Point_x p))
            (dec_sub prec (dec_mul prec (dec_of_int 2) (Point_y p)) (Point_y p)).
Proof.
  intros V. unfold folded_point, perpendicular_intersection_point.
  rewrite contains_point_vertical, V by assumption. reflexivity.
Qed.

Lemma dec_value_2 : (dec_value (dec_of_int 2) == 2)%Q.
Proof. reflexivity. Qed.


End ArithmeticShape.


(** *** Construction, division sites, candidates through the centroid *)

Section FinderFacts.
Variable prec : Z.
Variable hash_nan : Z.
Variable hash_str : string -> Z.

Lemma set_add_length s p :
  (List.length s <= List.length (set_add prec hash_nan hash_str s p) <= S (List.length s))%nat.
Proof.
  unfold set_add. cbv zeta. destruct (set_contains _ _ _ _).
  - lia.
  - rewrite length_app. cbn. lia.
Qed.

Lemma fold_set_add_length l : forall s,
  (List.length s <= List.length (fold_left (set_add prec hash_nan hash_str) l s)
   <= List.length s + List.length l)%nat.
Proof.
  induction l as [|p l IH]; intros s; cbn [fold_left List.length].
  - lia.
  - specialize (IH (set_add prec hash_nan hash_str s p)).
    pose proof (set_add_length s p). lia.
Qed.

Lemma py_set_length l :
  (List.length (py_set prec hash_nan hash_str l) <= List.length l)%nat /\
  (l <> [] -> 1 <= List.length (py_set prec hash_nan hash_str l))%nat.
Proof.
  unfold py_set. rewrite length_map. split.
  - pose proof (fold_set_add_length l []). cbn in *. lia.
  - destruct l as [|p l]; [congruence | intros _].
    cbn [fold_left].
    pose proof (fold_set_add_length l (set_add prec hash_nan hash_str [] p)) as H.
    assert (List.length (set_add prec hash_nan hash_str [] p) = 1%nat) as H1 by reflexivity.
    lia.
Qed.

Lemma init_spec (order : SetOrder) pts :
  (SymmetryLineFinder_init prec hash_nan hash_str order pts = Raise ValueError <->
   (List.length pts <= 2)%nat) /\
  (forall self, SymmetryLineFinder_init prec hash_nan hash_str order pts = Ok self ->
     (3 <= List.length pts)%nat /\
     Permutation (points self) (py_set prec hash_nan hash_str pts) /\
     (1 <= List.length (points self) <= List.length pts)%nat).
Proof.
  unfold SymmetryLineFinder_init.
  destruct (Nat.leb_spec (List.length pts) 2) as [Hle | Hgt].
  - split; [tauto | intros self H; discriminate H].
  - split; [split; [discriminate | lia] |].
    intros self H. inversion H; subst self; clear H. cbn [points].
    pose proof (set_order_perm order (py_set prec hash_nan hash_str pts)) as Hperm.
    split; [lia |]. split; [assumption |].
    rewrite (Permutation_length Hperm).
    destruct (py_set_length pts) as [H1 H2].
    assert (pts <> []) by (destruct pts; [cbn in Hgt; lia | discriminate]).
    specialize (H2 ltac:(assumption)). lia.
Qed.

(** No division of the program meets a zero divisor. *)
Lemma division_sites_nonzero :
  (forall p0 p1 : Point,
     negb (dec_eqb (dec_sub prec (Point_x p1) (Point_x p0)) (dec_of_int 0)) = true ->
     is_zero (dec_sub prec (Point_x p1) (Point_x p0)) = false) /\
  (forall m, 1 <= prec ->
     is_zero (dec_add prec (dec_mul prec m m) (dec_of_int 1)) = false) /\
  (forall self : Line, is_horizontal self = false -> is_zero (Line_slope self) = false) /\
  (forall self : SymmetryLineFinder, points self <> [] ->
     is_zero (dec_of_int (Z.of_nat (List.length (points self)))) = false) /\
  is_zero (Fin false 20 (-1)) = false.
Proof.
  repeat split.
  - intros p0 p1 H. rewrite dec_eqb_zero in H. apply negb_true_iff. assumption.
  - intros m Hp. destruct m as [s c e|]; [| reflexivity].
    unfold dec_mul. destruct (fix_is_Fin prec (xorb s s) (c * c) (e + e)) as (c' & e' & ->).
    rewrite xorb_nilpotent. unfold dec_add. cbv zeta.
    change (dec_of_int 1) with (Fin false 1 0). cbv iota beta.
    set (v := signed false c' * 10 ^ (e' - Z.min e' 0) + signed false 1 * 10 ^ (0 - Z.min e' 0)).
    assert (0 < v) as Hv.
    { subst v. unfold signed.
      assert (0 < 10 ^ (0 - Z.min e' 0)) by (apply Z.pow_pos_nonneg; lia).
      assert (0 <= 10 ^ (e' - Z.min e' 0)) by (apply Z.pow_nonneg; lia).
      change (Z.of_N 1) with 1. nia. }
    destruct (fix_is_Fin prec (if v =? 0 then false && false else v <? 0) (Z.abs_N v) (Z.min e' 0))
      as (c2 & e2 & Hfix).
    rewrite Hfix. cbn [is_zero]. apply N.eqb_neq.
    eapply fix_coeff; [exact Hp | exact Hfix | lia].
  - intros self H. unfold is_horizontal in H. rewrite dec_eqb_zero in H. assumption.
  - intros self H. unfold dec_of_int, is_zero. apply N.eqb_neq.
    destruct (points self); [congruence |]. cbn [List.length]. lia.
Qed.

(** A vertical candidate line with a set [x] passes through the centroid. *)
Lemma from_points_vertical_through p0 p1 :
  1 <= prec ->
  is_vertical (from_points prec p0 p1) = true ->
  is_nan (Line_x (from_points prec p0 p1)) = false ->
  dec_eqb (Line_x (from_points prec p0 p1)) (Point_x p0) = true.
Proof.
  intros Hp V X.
  destruct (is_zero (dec_sub prec (Point_x p1) (Point_x p0))) eqn:Hz.
  - rewrite from_points_vertical by assumption. cbn [Line_x].
    apply dec_sub_zero with (prec := prec); assumption.
  - rewrite from_points_sloped in X by assumption. discriminate X.
Qed.

Lemma from_points_sloped_finite p0 p1 :
  is_vertical (from_points prec p0 p1) = false ->
  finite_point p0 /\ finite_point p1 /\
  is_zero (dec_sub prec (Point_x p1) (Point_x p0)) = false.
Proof.
  intros V.
  destruct (is_zero (dec_sub prec (Point_x p1) (Point_x p0))) eqn:Hz.
  - rewrite from_points_vertical in V by assumption. discriminate V.
  - rewrite from_points_sloped in V by assumption. cbv zeta in V.
    unfold is_vertical in V. cbn [Line_slope Line_intercept] in V.
    apply orb_false_iff in V. destruct V as [V1 V2].
    rewrite dec_div_nan, !dec_sub_nan in V1.
    apply orb_false_iff in V1. destruct V1 as [V1 _].
    apply orb_false_iff in V1. destruct V1 as [Vy Vx].
    apply orb_false_iff in Vy, Vx. destruct Vy, Vx.
    unfold finite_point. auto.
Qed.

End FinderFacts.


(** *** Rearrangements *)

Section Orderings.
Context {A : Type}.

Lemma insert_everywhere_In (a : A) l1 l2 :
  In (l1 ++ a :: l2) (insert_everywhere a (l1 ++ l2)).
Proof.
  induction l1 as [|b l1 IH]; cbn.
  - destruct l2; left; reflexivity.
  - right. apply in_map. exact IH.
Qed.

Lemma orderings_complete (l : list A) : forall l', Permutation l l' -> In l' (orderings l).
Proof.
  induction l as [|a r IH]; intros l' Hp; cbn [orderings].
  - apply Permutation_nil in Hp. subst. left. reflexivity.
  - assert (In a l') as Hin by (eapply Permutation_in; [exact Hp | left; reflexivity]).
    apply in_split in Hin. destruct Hin as (l1 & l2 & ->).
    apply Permutation_cons_app_inv in Hp.
    apply in_flat_map. exists (l1 ++ l2). split; [apply IH; assumption |].
    apply insert_everywhere_In.
Qed.

End Orderings.

(** *** The hash salt does not influence the generator *)

Section HashIndependence.
Variable prec : Z.

Lemma set_contains_lines hn hs T cent st l :
  gen_inv prec hn hs T cent st -> shaped l ->
  set_contains (Line_eq prec) (Line_hash prec hn hs l) l (fst st) =
  existsb (fun v => Line_eq prec v l) (snd st).
Proof.
  intros [Hv Hy Hs _] Sl.
  destruct (existsb (fun v => Line_eq prec v l) (snd st)) eqn:E.
  - apply existsb_exists in E. destruct E as (v & Hin & Heq).
    unfold set_contains. apply existsb_exists. exists (Line_hash prec hn hs v, v).
    split; [apply Hy; assumption |]. cbn [fst snd]. rewrite Heq, andb_true_r.
    apply Z.eqb_eq. apply Line_eq_hash; [| assumption | assumption].
    destruct (Hs v Hin) as (q & _ & ->). apply from_points_shaped.
  - destruct (set_contains _ _ _ _) eqn:C; [exfalso | reflexivity].
    apply set_contains_true in C. destruct C as (e & Hin & Heq).
    assert (existsb (fun v => Line_eq prec v l) (snd st) = true) as Ht.
    { apply existsb_exists. exists (snd e). split; [apply Hv; assumption | assumption]. }
    congruence.
Qed.

Variables hn hn' : Z.
Variables hs hs' : string -> Z.

Lemma offer_sim T cent st st' q :
  gen_sim prec hn hn' hs hs' T cent st st' -> T q ->
  gen_sim prec hn hn' hs hs' T cent (offer prec hn hs st (from_points prec cent q))
                 (offer prec hn' hs' st' (from_points prec cent q)).
Proof.
  intros (H1 & H2 & Heq) Hq. split; [| split].
  - apply offer_inv; assumption.
  - apply offer_inv; assumption.
  - pose proof (set_contains_lines hn hs T cent st _ H1 (from_points_shaped prec cent q)) as C1.
    pose proof (set_contains_lines hn' hs' T cent st' _ H2 (from_points_shaped prec cent q)) as C2.
    destruct st as [v y], st' as [v' y']. cbn [fst snd] in *. subst y'.
    unfold offer. cbv zeta. rewrite C1, C2.
    destruct (existsb _ y); reflexivity.
Qed.

Lemma offer_all_sim {X} T cent (f : X -> Point) xs : forall st st',
  gen_sim prec hn hn' hs hs' T cent st st' -> (forall x, In x xs -> T (f x)) ->
  gen_sim prec hn hn' hs hs' T cent
    (fold_left (fun st x => offer prec hn hs st (from_points prec cent (f x))) xs st)
    (fold_left (fun st x => offer prec hn' hs' st (from_points prec cent (f x))) xs st').
Proof.
  induction xs as [|x xs IH]; intros st st' Hst Hxs; cbn [fold_left]; [assumption |].
  apply IH.
  - apply offer_sim; [assumption | apply Hxs; left; reflexivity].
  - intros y Hy. apply Hxs. right. assumption.
Qed.

Lemma pair_loop_sim all cent pts : forall st st',
  incl pts all -> gen_sim prec hn hn' hs hs' (candidate_target prec all) cent st st' ->
  gen_sim prec hn hn' hs hs' (candidate_target prec all) cent
    (pair_loop prec hn hs cent pts st) (pair_loop prec hn' hs' cent pts st').
Proof.
  induction pts as [|p0 rest IH]; intros st st' Hincl Hst; cbn [pair_loop]; [assumption |].
  apply IH.
  - intros x Hx. apply Hincl. right. assumption.
  - apply (offer_all_sim _ cent (fun p1 => bp_point (BisectionPoint_init prec p0 p1)));
      [assumption |].
    intros p1 Hp1. right. exists p0, p1. repeat split.
    + apply Hincl. left. reflexivity.
    + apply Hincl. right. assumption.
Qed.

(** The candidate lines do not depend on the process's hash salt. *)
Lemma candidates_hash_independent self :
  _candidate_symmetry_lines prec hn hs self = _candidate_symmetry_lines prec hn' hs' self.
Proof.
  unfold _candidate_symmetry_lines.
  destruct (List.length (points self) <? 3)%nat; [reflexivity |].
  assert (gen_sim prec hn hn' hs hs' (candidate_target prec (points self))
            (_centroid prec self) ([], []) ([], []))
    as H0 by (split; [| split]; [apply gen_inv_init | apply gen_inv_init | reflexivity]).
  pose proof (pair_loop_sim (points self) (_centroid prec self) (points self) _ _
                (incl_refl _) H0) as H1.
  unfold vertex_loop.
  apply (offer_all_sim _ (_centroid prec self) (fun p => p) (points self)) in H1.
  - apply H1.
  - intros p Hp. left. assumption.
Qed.

Lemma find_hash_independent self :
  find prec hn hs self = find prec hn' hs' self.
Proof. unfold find, find_all. rewrite candidates_hash_independent. reflexivity. Qed.

End HashIndependence.

(** *** Lines with an unset [x] *)

Section NanLines.
Variable prec : Z.

(** A vertical line whose [x] is unset is never classified as a symmetry
    line of a non-empty list. *)
Lemma unset_vertical_not_symmetry self pts :
  is_vertical self = true -> is_nan (Line_x self) = true -> pts <> [] ->
  is_symmetry_line prec self pts = false.
Proof.
  intros V X Hne. destruct pts as [|p rest]; [congruence |].
  destruct (is_symmetry_line prec self (p :: rest)) eqn:E; [exfalso | reflexivity].
  apply is_symmetry_line_true in E.
  destruct (E p (or_introl eq_refl)) as (q & _ & Hq).
  apply Point_eq_finite in Hq. destruct Hq as [_ [Hfx _]].
  rewrite folded_point_vertical in Hfx by assumption. cbn [Point_x] in Hfx.
  rewrite dec_sub_nan, dec_mul_nan, X in Hfx. cbn in Hfx. discriminate.
Qed.

End NanLines.

(** *** [set(points)] *)

Section SetFacts.
Variable prec : Z.
Variable hash_nan : Z.
Variable hash_str : string -> Z.

Lemma set_add_inv seen s p :
  set_inv prec hash_nan hash_str seen s ->
  set_inv prec hash_nan hash_str (seen ++ [p]) (set_add prec hash_nan hash_str s p).
Proof.
  intros (Hh & Hc & Hd). unfold set_add. cbv zeta.
  destruct (set_contains (Point_eq prec) _ p s) eqn:C.
  - split; [| split].
    + intros e Hin. destruct (Hh e Hin). split; [assumption | apply in_or_app; left; assumption].
    + intros p' Hin. apply in_app_or in Hin.
      destruct Hin as [Hin | [<- | []]]; [apply Hc; assumption |].
      apply set_contains_true in C. destruct C as (e & Hin & Heq).
      exists (snd e). split; [apply in_map; assumption | right; assumption].
    + assumption.
  - split; [| split].
    + intros e Hin. apply in_app_or in Hin. destruct Hin as [Hin | [<- | []]].
      * destruct (Hh e Hin). split; [assumption | apply in_or_app; left; assumption].
      * cbn [fst snd]. split; [reflexivity | apply in_or_app; right; left; reflexivity].
    + intros p' Hin. rewrite map_app. apply in_app_or in Hin.
      destruct Hin as [Hin | [<- | []]].
      * destruct (Hc p' Hin) as (q & Hq & Hqp). exists q.
        split; [apply in_or_app; left; assumption | assumption].
      * exists p. split; [apply in_or_app; right; left; reflexivity | left; reflexivity].
    + rewrite map_app. cbn [map snd]. apply ForallOrdPairs_snoc; [assumption |].
      apply Forall_forall. intros q Hq. apply in_map_iff in Hq. destruct Hq as (e & <- & Hin).
      apply not_true_is_false. intros E.
      pose proof (set_contains_false (Point_eq prec) _ _ _ C e Hin) as Hf.
      rewrite Hf in E; [discriminate |].
      rewrite (proj1 (Hh e Hin)). apply Point_eq_hash. assumption.
Qed.

Lemma fold_set_add_inv l : forall seen s,
  set_inv prec hash_nan hash_str seen s ->
  set_inv prec hash_nan hash_str (seen ++ l)
    (fold_left (set_add prec hash_nan hash_str) l s).
Proof.
  induction l as [|p l IH]; intros seen s H; cbn [fold_left].
  - rewrite app_nil_r. assumption.
  - replace (seen ++ p :: l) with ((seen ++ [p]) ++ l) by (rewrite <- app_assoc; reflexivity).
    apply IH. apply set_add_inv. assumption.
Qed.

(** [set(points)] removes duplicates under Point equality: its elements come
    from the input, no two of them are equal, and every input point is in
    it or equal to one of its elements. *)
Lemma py_set_spec l :
  incl (py_set prec hash_nan hash_str l) l /\
  ForallOrdPairs (fun a b => Point_eq prec a b = false) (py_set prec hash_nan hash_str l) /\
  (forall p, In p l ->
     exists q, In q (py_set prec hash_nan hash_str l) /\ (q = p \/ Point_eq prec q p = true)).
Proof.
  assert (set_inv prec hash_nan hash_str [] []) as H0.
  { split; [| split]; cbn; try tauto. constructor. }
  apply (fold_set_add_inv l) in H0. cbn [app] in H0. destruct H0 as (Hh & Hc & Hd).
  unfold py_set. split; [| split]; try assumption.
  intros q Hq. apply in_map_iff in Hq. destruct Hq as (e & <- & Hin). apply Hh. assumption.
Qed.

End SetFacts.

(** ** Rounding error *)

Section RoundingError.

Lemma dec_value_deq a b :
  dec_eqb a b = true -> (dec_value a == dec_value b)%Q.
Proof. intros H. apply dec_eqb_iff in H. apply H. Qed.

Lemma Qpow10_pos e : (0 < inject_Z 10 ^ e)%Q.
Proof. apply Qpower_0_lt. reflexivity. Qed.

Lemma signed_diff s a b :
  Z.abs (signed s a - signed s b) = Z.abs (Z.of_N a - Z.of_N b).
Proof. unfold signed. destruct s; lia. Qed.

(** The rounded coefficient, read at the exponent of the operand, is within
    half a unit of the last kept digit. *)
Lemma fix_error p s c e :
  1 <= p ->
  exists m : N,
    (dec_value (fix_ p (Fin s c e)) == inject_Z (signed s m) * inject_Z 10 ^ e)%Q /\
    2 * Z.abs (Z.of_N m - Z.of_N c) <= 10 ^ Z.max 0 (ndigits c - p) /\
    (ndigits c <= p -> m = c).
Proof.
  intros Hp.
  destruct (N.eq_dec c 0) as [-> | Hc].
  { exists 0%N. rewrite fix_zero. split; [reflexivity |]. split; [| reflexivity].
    cbn [Z.of_N Z.sub Z.abs Z.mul]. apply Z.pow_nonneg. lia. }
  destruct (Z.le_gt_cases (ndigits c) p) as [Hle | Hgt].
  { exists c. rewrite fix_fits by assumption. split; [reflexivity |]. split; [| reflexivity].
    rewrite Z.sub_diag. cbn [Z.abs Z.mul]. apply Z.pow_nonneg. lia. }
  set (k := ndigits c - p).
  assert (0 < k) as Hk by (subst k; lia).
  pose proof (pow10_pos k) as HP.
  set (coeff := round_half_even c k).
  exists (coeff * pow10 k)%N.
  split; [| split; [| lia]].
  - rewrite fix_rounds by lia. cbv zeta. fold k. fold coeff.
    destruct (Z.ltb_spec p (ndigits coeff)) as [Hbig | Hsmall].
    + (* the carry: coeff = 10^p *)
      destruct (fix_is_Fin p s c e) as (c' & e' & Hfix).
      pose proof (round_half_even_range c k) as Hr. fold coeff in Hr.
      pose proof (div_pow10_bounds c k Hc ltac:(subst k; lia)) as Hq.
      replace (ndigits c - k) with p in Hq by (subst k; lia).
      assert (pow10 p <= coeff)%N as Hge.
      { destruct (N.le_gt_cases (pow10 p) coeff) as [|Hlt]; [assumption | exfalso].
        destruct (ndigits_spec coeff) as (_ & _ & H3).
        assert (coeff <> 0%N) as Hnz.
        { intros Hz. rewrite Hz, ndigits_0 in Hbig. lia. }
        specialize (H3 Hnz).
        pose proof (pow10_le p (ndigits coeff - 1) ltac:(lia)). lia. }
      assert (coeff = pow10 p) as Hcoeff by lia.
      assert (coeff = (coeff / 10 * 10)%N) as Hdiv.
      { rewrite Hcoeff. replace (pow10 p) with (pow10 ((p - 1) + 1)) by (f_equal; lia).
        rewrite pow10_succ by lia. rewrite (N.mul_comm 10), N.div_mul by discriminate. lia. }
      rewrite Hdiv at 2.
      replace (coeff / 10 * 10 * pow10 k)%N with (coeff / 10 * pow10 (k + 1))%N
        by (rewrite pow10_succ by lia; lia).
      rewrite <- signed_scale by lia.
      rewrite (dec_value_shift s (coeff / 10) (ndigits c + e - p + 1) e) by lia.
      replace (ndigits c + e - p + 1 - e) with (k + 1) by (subst k; lia). reflexivity.
    + rewrite <- signed_scale by lia.
      rewrite (dec_value_shift s coeff (ndigits c + e - p) e) by lia.
      replace (ndigits c + e - p - e) with k by (subst k; lia). reflexivity.
  - rewrite Z.max_r by lia. fold k.
    rewrite <- pow10_Z by lia. rewrite N2Z.inj_mul.
    pose proof (N.div_mod c (pow10 k) ltac:(lia)) as Hdm.
    pose proof (N.mod_lt c (pow10 k) ltac:(lia)) as Hlt.
    subst coeff. unfold round_half_even.
    set (q := (c / pow10 k)%N) in *. set (r := (c mod pow10 k)%N) in *.
    destruct (N.ltb_spec (pow10 k) (2 * r)) as [H1 | H1]; [nia |].
    destruct (N.eqb_spec (2 * r) (pow10 k)) as [H2 | H2]; [| nia].
    destruct (N.odd q); nia.
Qed.

Lemma fix_error_bound p s c e :
  1 <= p ->
  (Qabs (dec_value (fix_ p (Fin s c e)) - dec_value (Fin s c e))
   <= (1 # 2) * inject_Z 10 ^ (Z.max 0 (ndigits c - p) + e))%Q.
Proof.
  intros Hp. destruct (fix_error p s c e Hp) as (m & Hv & Hb & _).
  rewrite Hv. cbn [dec_value].
  assert (inject_Z (signed s m) * inject_Z 10 ^ e - inject_Z (signed s c) * inject_Z 10 ^ e
          == inject_Z (signed s m - signed s c) * inject_Z 10 ^ e)%Q as ->.
  { unfold Z.sub. rewrite inject_Z_plus, inject_Z_opp. ring. }
  rewrite Qabs_Qmult, (Qabs_pos (inject_Z 10 ^ e)) by (apply Qlt_le_weak, Qpow10_pos).
  rewrite Qpower_plus by (intro H; discriminate H).
  rewrite Qmult_assoc. apply Qmult_le_compat_r; [| apply Qlt_le_weak, Qpow10_pos].
  rewrite <- Zpower_Qpower by lia.
  assert (Qabs (inject_Z (signed s m - signed s c))
          == inject_Z (Z.abs (signed s m - signed s c)))%Q as -> by reflexivity.
  rewrite signed_diff.
  set (P := 10 ^ Z.max 0 (ndigits c - p)) in *.
  set (A := Z.abs (Z.of_N m - Z.of_N c)) in *.
  unfold Qle, Qmult, inject_Z. cbn [Qnum Qden]. lia.
Qed.

End RoundingError.

(** ** More on the symmetry test and on [find] *)

Section SymmetryCheckMore.
Variable prec : Z.

Lemma folds_into_perm line pts pts' :
  Permutation pts pts' -> folds_into prec line pts -> folds_into prec line pts'.
Proof.
  intros Hp H p Hin.
  destruct (H p (Permutation_in _ (Permutation_sym Hp) Hin)) as (q & Hq & Heq).
  exists q. split; [eapply Permutation_in; eassumption | assumption].
Qed.

Lemma contains_point_nan self p :
  is_nan (Point_x p) = true \/ is_nan (Point_y p) = true ->
  contains_point prec self p = false.
Proof.
  intros H. unfold contains_point.
  destruct H as [H | H].
  - set (r := dec_add prec _ _).
    assert (is_nan r = true) as Hr by (subst r; rewrite dec_add_nan, dec_mul_nan, H; reflexivity).
    destruct r; [discriminate | apply dec_eqb_nan_r].
  - destruct (Point_y p); [discriminate | reflexivity].
Qed.

(** The fold of a point with a NaN coordinate has a NaN coordinate. *)
Lemma folded_point_nan self p :
  is_nan (Point_x p) = true \/ is_nan (Point_y p) = true ->
  is_nan (Point_x (folded_point prec self p)) = true \/
  is_nan (Point_y (folded_point prec self p)) = true.
Proof.
  intros H. unfold folded_point. rewrite contains_point_nan by assumption.
  cbn [Point_x Point_y]. rewrite !dec_sub_nan, !dec_mul_nan. cbn [is_nan dec_of_int orb].
  unfold perpendicular_intersection_point.
  destruct (is_vertical self).
  - cbn [Point_x Point_y]. destruct H as [-> | ->]; [left | right]; apply orb_true_r.
  - destruct (is_horizontal self).
    + cbn [Point_x Point_y]. destruct H as [-> | ->]; [left | right]; apply orb_true_r.
    + cbn [Point_x Point_y]. left.
      rewrite dec_mul_nan, dec_sub_nan, dec_add_nan, dec_div_nan.
      destruct H as [-> | ->]; rewrite ?orb_true_r; reflexivity.
Qed.

Lemma nan_point_no_symmetry line pts p :
  In p pts -> is_nan (Point_x p) = true \/ is_nan (Point_y p) = true ->
  is_symmetry_line prec line pts = false.
Proof.
  intros Hin Hnan.
  destruct (is_symmetry_line prec line pts) eqn:E; [exfalso | reflexivity].
  apply is_symmetry_line_true in E. destruct (E p Hin) as (q & _ & Hq).
  apply Point_eq_finite in Hq. destruct Hq as [_ [Hx Hy]].
  destruct (folded_point_nan line p Hnan); congruence.
Qed.

End SymmetryCheckMore.

Section FindMore.
Variable prec : Z.
Variable hash_nan : Z.
Variable hash_str : string -> Z.

Lemma find_is_filter self :
  find prec hash_nan hash_str self =
  filter (fun line => is_symmetry_line prec line (points self))
         (_candidate_symmetry_lines prec hash_nan hash_str self).
Proof.
  unfold find, find_all.
  induction (_candidate_symmetry_lines prec hash_nan hash_str self) as [|l ls IH]; cbn.
  - reflexivity.
  - destruct (is_symmetry_line prec l (points self)); cbn; rewrite IH; reflexivity.
Qed.

Lemma ForallOrdPairs_filter {A} (R : A -> A -> Prop) (f : A -> bool) l :
  ForallOrdPairs R l -> ForallOrdPairs R (filter f l).
Proof.
  induction 1 as [|a l Ha Hl IH]; cbn; [constructor |].
  destruct (f a); [| assumption].
  constructor; [| assumption].
  apply Forall_forall. intros x Hx. apply filter_In in Hx.
  rewrite Forall_forall in Ha. apply Ha, Hx.
Qed.

Lemma find_distinct self :
  ForallOrdPairs (fun a b => Line_eq prec a b = false) (find prec hash_nan hash_str self).
Proof. rewrite find_is_filter. apply ForallOrdPairs_filter, candidates_distinct. Qed.

Lemma find_nonempty_points self line :
  In line (find prec hash_nan hash_str self) -> (3 <= List.length (points self))%nat.
Proof.
  intros Hin. apply find_spec in Hin. destruct Hin as [Hc _].
  destruct (Nat.lt_ge_cases (List.length (points self)) 3) as [Hlt | Hge]; [| assumption].
  rewrite candidates_short in Hc by assumption. destruct Hc.
Qed.

Lemma find_line_set self line :
  In line (find prec hash_nan hash_str self) -> Line_eq prec line line = true.
Proof.
  intros Hin. pose proof (find_nonempty_points self line Hin) as Hlen.
  apply find_spec in Hin. destruct Hin as [_ Hs].
  apply Line_eq_refl. destruct (is_vertical line) eqn:V; [| exact I].
  destruct (is_nan (Line_x line)) eqn:X; [exfalso | reflexivity].
  rewrite (unset_vertical_not_symmetry prec line (points self) V X) in Hs; [discriminate |].
  intros Hnil. rewrite Hnil in Hlen. cbn in Hlen. lia.
Qed.

Lemma find_all_finite self line :
  In line (find prec hash_nan hash_str self) -> Forall finite_point (points self).
Proof.
  intros Hin. apply find_spec in Hin. destruct Hin as [_ Hs].
  apply Forall_forall. intros p Hp.
  destruct (is_nan (Point_x p)) eqn:X.
  - rewrite (nan_point_no_symmetry prec line _ p Hp (or_introl X)) in Hs. discriminate.
  - destruct (is_nan (Point_y p)) eqn:Y.
    + rewrite (nan_point_no_symmetry prec line _ p Hp (or_intror Y)) in Hs. discriminate.
    + split; assumption.
Qed.

End FindMore.

(** ** The generator as one pass over the raw lines *)

Section GeneratorMore.
Variable prec : Z.
Variable hash_nan : Z.
Variable hash_str : string -> Z.

Local Abbreviation offer_ := (offer prec hash_nan hash_str).









End GeneratorMore.

(** ** The shape of the lines built from finite points *)

Section ShapeMore.
Variable prec : Z.

Lemma is_zero_fix s c e :
  1 <= prec -> is_zero (fix_ prec (Fin s c e)) = (c =? 0)%N.
Proof.
  intros Hp. destruct (fix_is_Fin prec s c e) as (c' & e' & Hfix). rewrite Hfix.
  cbn [is_zero]. destruct (fix_coeff _ _ _ _ _ _ Hp Hfix) as [_ Hnz].
  destruct (N.eqb_spec c 0) as [-> | Hc].
  - rewrite fix_zero in Hfix. inversion Hfix. reflexivity.
  - apply N.eqb_neq. auto.
Qed.

(** The rounded difference is zero exactly when the operands are equal. *)
Lemma is_zero_sub a b :
  1 <= prec -> is_zero (dec_sub prec a b) = dec_eqb a b.
Proof.
  intros Hp. destruct a as [s1 c1 e1|], b as [s2 c2 e2|]; try reflexivity.
  unfold dec_sub, dec_add. cbn [dec_neg]. cbv zeta. rewrite is_zero_fix by assumption.
  cbn [dec_eqb]. cbv zeta. rewrite signed_neg.
  set (x := signed s1 c1 * 10 ^ (e1 - Z.min e1 e2)).
  set (y := signed s2 c2 * 10 ^ (e2 - Z.min e1 e2)).
  replace (- signed s2 c2 * 10 ^ (e2 - Z.min e1 e2)) with (- y) by (subst y; ring).
  destruct (N.eqb_spec (Z.abs_N (x + - y)) 0) as [H | H];
    destruct (Z.eqb_spec x y) as [H' | H']; try reflexivity; lia.
Qed.

Lemma strip_zeros_nonzero fuel c e c' e' :
  strip_zeros fuel c e = (c', e') -> c <> 0%N -> c' <> 0%N.
Proof.
  intros H Hc. apply strip_zeros_spec in H. destruct H as [_ H]. intros ->. apply Hc.
  rewrite H. reflexivity.
Qed.

(** A quotient is zero exactly when the dividend is. *)
Lemma is_zero_div a b :
  1 <= prec -> is_nan a = false -> is_nan b = false -> is_zero b = false ->
  is_zero (dec_div prec a b) = is_zero a.
Proof.
  intros Hp Fa Fb Zb. destruct a as [s1 c1 e1|], b as [s2 c2 e2|]; try discriminate.
  cbn [is_zero] in *. unfold dec_div. rewrite Zb.
  destruct (N.eqb_spec c1 0) as [-> | Hc1]; [rewrite is_zero_fix by assumption; reflexivity |].
  apply N.eqb_neq in Zb.
  set (shift := ndigits c2 - ndigits c1 + prec + 1).
  destruct (ndigits_spec c1) as (A1 & A2 & A3), (ndigits_spec c2) as (B1 & B2 & B3).
  specialize (A3 Hc1). specialize (B3 Zb).
  assert (fst (if 0 <=? shift then N.div_eucl (c1 * pow10 shift) c2
               else N.div_eucl c1 (c2 * pow10 (- shift))) <> 0%N) as Hq.
  { destruct (Z.leb_spec 0 shift) as [Hs | Hs].
    - change (fst (N.div_eucl (c1 * pow10 shift) c2)) with ((c1 * pow10 shift) / c2)%N.
      assert (c2 <= c1 * pow10 shift)%N as Hle.
      { pose proof (pow10_le (ndigits c2) (ndigits c1 - 1 + shift) ltac:(subst shift; lia)) as H.
        rewrite pow10_add in H by lia. nia. }
      pose proof (N.div_le_lower_bound (c1 * pow10 shift) c2 1 Zb ltac:(lia)). lia.
    - change (fst (N.div_eucl c1 (c2 * pow10 (- shift)))) with (c1 / (c2 * pow10 (- shift)))%N.
      pose proof (pow10_pos (- shift)) as Hpos.
      assert (c2 * pow10 (- shift) <= c1)%N as Hle.
      { pose proof (pow10_le (ndigits c2 + - shift) (ndigits c1 - 1) ltac:(subst shift; lia)) as H.
        rewrite pow10_add in H by lia. nia. }
      pose proof (N.div_le_lower_bound c1 (c2 * pow10 (- shift)) 1 ltac:(lia) ltac:(lia)). lia. }
  destruct (if 0 <=? shift then _ else _) as [coeff remainder]. cbn [fst] in Hq.
  destruct (remainder =? 0)%N.
  - destruct (strip_zeros _ coeff _) as [c' e'] eqn:Hs.
    rewrite is_zero_fix by assumption. apply N.eqb_neq.
    eapply strip_zeros_nonzero; eassumption.
  - rewrite is_zero_fix by assumption. apply N.eqb_neq.
    destruct (coeff mod 5 =? 0)%N; lia.
Qed.

(** [from_points] tests a rounded difference; the test is the comparison of
    the abscissas. *)
Lemma from_points_by_abscissa p0 p1 :
  1 <= prec ->
  from_points prec p0 p1 =
    if dec_eqb (Point_x p1) (Point_x p0) then mkLine NaN NaN (Point_x p1)
    else
      let slope := dec_div prec (dec_sub prec (Point_y p1) (Point_y p0))
                                (dec_sub prec (Point_x p1) (Point_x p0)) in
      mkLine slope (dec_sub prec (Point_y p1) (dec_mul prec slope (Point_x p1))) NaN.
Proof.
  intros Hp. rewrite <- is_zero_sub by assumption.
  destruct (is_zero _) eqn:Z; [apply from_points_vertical | apply from_points_sloped]; assumption.
Qed.

Lemma from_points_well_formed p0 p1 :
  1 <= prec -> finite_point p0 -> finite_point p1 ->
  well_formed_line (from_points prec p0 p1) /\
  is_vertical (from_points prec p0 p1) = dec_eqb (Point_x p1) (Point_x p0).
Proof.
  intros Hp [F0x F0y] [F1x F1y]. rewrite from_points_by_abscissa by assumption.
  pose proof (is_zero_sub (Point_x p1) (Point_x p0) Hp) as Hz.
  destruct (dec_eqb (Point_x p1) (Point_x p0)).
  - split; [left; cbn; auto | reflexivity].
  - cbv zeta. unfold well_formed_line, is_vertical. cbn [Line_slope Line_intercept Line_x].
    rewrite dec_sub_nan, dec_mul_nan, dec_div_nan, !dec_sub_nan, F0x, F0y, F1x, F1y, Hz.
    split; [right; cbn; auto | reflexivity].
Qed.

Lemma from_points_horizontal p0 p1 :
  1 <= prec -> finite_point p0 -> finite_point p1 ->
  dec_eqb (Point_x p1) (Point_x p0) = false ->
  is_horizontal (from_points prec p0 p1) = dec_eqb (Point_y p1) (Point_y p0).
Proof.
  intros Hp [F0x F0y] [F1x F1y] Hx. rewrite from_points_by_abscissa, Hx by assumption.
  cbv zeta. unfold is_horizontal. cbn [Line_slope]. rewrite dec_eqb_zero.
  rewrite is_zero_div; try assumption.
  - apply is_zero_sub. assumption.
  - rewrite dec_sub_nan, F0y, F1y. reflexivity.
  - rewrite dec_sub_nan, F0x, F1x. reflexivity.
  - rewrite is_zero_sub; assumption.
Qed.


Lemma fold_add_nan l : forall acc,
  is_nan (fold_left (dec_add prec) l acc) = is_nan acc || existsb is_nan l.
Proof.
  induction l as [|d l IH]; intros acc; cbn [fold_left existsb].
  - rewrite orb_false_r. reflexivity.
  - rewrite IH, dec_add_nan, orb_assoc. reflexivity.
Qed.

Lemma py_sum_nan l : is_nan (py_sum prec l) = existsb is_nan l.
Proof.
  destruct l as [|d l]; [reflexivity |].
  unfold py_sum. rewrite fold_add_nan, dec_add_nan. cbn [is_nan dec_of_int existsb].
  rewrite orb_false_r. reflexivity.
Qed.

Lemma existsb_nan_coord (f : Point -> Decimal) pts :
  existsb is_nan (map f pts) = false <-> Forall (fun p => is_nan (f p) = false) pts.
Proof.
  induction pts as [|p pts IH]; cbn [map existsb].
  - split; [constructor | reflexivity].
  - rewrite orb_false_iff, IH. split.
    + intros [H1 H2]. constructor; assumption.
    + intros H. inversion H; subst. auto.
Qed.

(** The centroid of a non-empty list is finite exactly when every point
    is. *)
Lemma centroid_finite self :
  points self <> [] ->
  (finite_point (_centroid prec self) <-> Forall finite_point (points self)).
Proof.
  intros Hne. unfold _centroid, finite_point. cbn [Point_x Point_y].
  assert (is_zero (dec_of_int (Z.of_nat (List.length (points self)))) = false) as Hz.
  { unfold dec_of_int, is_zero. apply N.eqb_neq.
    destruct (points self); [congruence | cbn [List.length]; lia]. }
  rewrite !dec_div_nan, !py_sum_nan, Hz. cbn [is_nan dec_of_int]. rewrite !orb_false_r.
  rewrite !existsb_nan_coord, !Forall_forall. split.
  - intros [Hx Hy] p Hp. split; auto.
  - intros H. split; intros p Hp; apply H; assumption.
Qed.

Lemma bisection_finite p0 p1 :
  finite_point p0 -> finite_point p1 ->
  finite_point (bp_point (BisectionPoint_init prec p0 p1)).
Proof.
  intros [F0x F0y] [F1x F1y]. unfold BisectionPoint_init, finite_point.
  cbn [bp_point Point_x Point_y].
  rewrite !dec_add_nan, !dec_div_nan, !dec_sub_nan, F0x, F0y, F1x, F1y. cbn. auto.
Qed.

End ShapeMore.

(** ** Decimals of the same value *)

Section SameValue.

Lemma same_value_nan a b : same_value a b -> is_nan a = is_nan b.
Proof.
  intros [[-> ->] | H]; [reflexivity |].
  apply dec_eqb_Fin in H. destruct H as [-> ->]. reflexivity.
Qed.

Lemma same_value_refl a : same_value a a.
Proof.
  destruct a as [s c e|]; [right; apply dec_eqb_refl; reflexivity | left; auto].
Qed.

Lemma same_value_sym a b : same_value a b -> same_value b a.
Proof.
  intros [[Ha Hb] | H]; [left; auto | right; rewrite dec_eqb_sym; assumption].
Qed.

Lemma same_value_trans a b c : same_value a b -> same_value b c -> same_value a c.
Proof.
  intros [[Ha Hb] | H] [[Hb' Hc] | H'].
  - left; auto.
  - apply dec_eqb_Fin in H'. destruct H'; congruence.
  - apply dec_eqb_Fin in H. destruct H; congruence.
  - right. eapply dec_eqb_trans; eassumption.
Qed.

Lemma same_value_Fin s1 c1 e1 s2 c2 e2 :
  same_value (Fin s1 c1 e1) (Fin s2 c2 e2) <->
  (dec_value (Fin s1 c1 e1) == dec_value (Fin s2 c2 e2))%Q.
Proof.
  rewrite <- dec_eqb_value. unfold same_value. cbn [is_nan]. intuition congruence.
Qed.

Lemma same_value_cases a b :
  same_value a b ->
  (a = NaN /\ b = NaN) \/
  exists s1 c1 e1 s2 c2 e2, a = Fin s1 c1 e1 /\ b = Fin s2 c2 e2 /\
    (dec_value a == dec_value b)%Q.
Proof.
  intros H. pose proof (same_value_nan _ _ H) as Hn.
  destruct a as [s1 c1 e1|], b as [s2 c2 e2|]; try discriminate; [right | left; auto].
  exists s1, c1, e1, s2, c2, e2. repeat split. apply same_value_Fin. assumption.
Qed.

Lemma same_value_eqb a a' b b' :
  same_value a a' -> same_value b b' -> dec_eqb a b = dec_eqb a' b'.
Proof.
  intros Ha Hb.
  destruct (same_value_cases _ _ Ha) as [[-> ->] | (s1 & c1 & e1 & s1' & c1' & e1' & -> & -> & Va)];
    [reflexivity |].
  destruct (same_value_cases _ _ Hb) as [[-> ->] | (s2 & c2 & e2 & s2' & c2' & e2' & -> & -> & Vb)];
    [reflexivity |].
  apply eq_true_iff_eq. rewrite !dec_eqb_value, Va, Vb. reflexivity.
Qed.

End SameValue.

Section Congruence.
Variable prec : Z.

Lemma same_value_fix a b : same_value a b -> same_value (fix_ prec a) (fix_ prec b).
Proof.
  intros [[Ha Hb] | H].
  - left. rewrite !fix_nan_iff. auto.
  - right. apply fix_deq. assumption.
Qed.

Lemma signed_abs v s :
  (v <> 0 -> s = (v <? 0)) -> signed s (Z.abs_N v) = v.
Proof.
  intros H. unfold signed. destruct (Z.eq_dec v 0) as [-> | Hv]; [destruct s; reflexivity |].
  rewrite (H Hv). destruct (Z.ltb_spec v 0); lia.
Qed.

(** The sum before rounding. *)
Lemma dec_add_value s1 c1 e1 s2 c2 e2 :
  exists s c e,
    dec_add prec (Fin s1 c1 e1) (Fin s2 c2 e2) = fix_ prec (Fin s c e) /\
    (dec_value (Fin s c e) == dec_value (Fin s1 c1 e1) + dec_value (Fin s2 c2 e2))%Q.
Proof.
  unfold dec_add. cbv zeta.
  set (e := Z.min e1 e2).
  set (v := signed s1 c1 * 10 ^ (e1 - e) + signed s2 c2 * 10 ^ (e2 - e)).
  exists (if v =? 0 then s1 && s2 else v <? 0), (Z.abs_N v), e. split; [reflexivity |].
  rewrite (dec_value_shift s1 c1 e1 e), (dec_value_shift s2 c2 e2 e) by (subst e; lia).
  cbn [dec_value]. rewrite signed_abs.
  - subst v. rewrite inject_Z_plus. ring.
  - intros Hv. apply Z.eqb_neq in Hv. rewrite Hv. reflexivity.
Qed.

Lemma dec_neg_value s c e :
  (dec_value (dec_neg (Fin s c e)) == - dec_value (Fin s c e))%Q.
Proof.
  cbn [dec_neg dec_value]. rewrite signed_neg, inject_Z_opp. ring.
Qed.

Lemma dec_mul_value s1 c1 e1 s2 c2 e2 :
  (dec_value (Fin (xorb s1 s2) (c1 * c2) (e1 + e2))
   == dec_value (Fin s1 c1 e1) * dec_value (Fin s2 c2 e2))%Q.
Proof.
  cbn [dec_value]. rewrite Qpower_plus by (intros H; discriminate H).
  assert (signed (xorb s1 s2) (c1 * c2) = signed s1 c1 * signed s2 c2) as ->.
  { unfold signed. destruct s1, s2; cbn [xorb]; lia. }
  rewrite inject_Z_mult. ring.
Qed.

Lemma same_value_add a a' b b' :
  same_value a a' -> same_value b b' ->
  same_value (dec_add prec a b) (dec_add prec a' b').
Proof.
  intros Ha Hb.
  destruct (same_value_cases _ _ Ha) as [[-> ->] | (s1 & c1 & e1 & s1' & c1' & e1' & -> & -> & Va)];
    [left; auto |].
  destruct (same_value_cases _ _ Hb) as [[-> ->] | (s2 & c2 & e2 & s2' & c2' & e2' & -> & -> & Vb)];
    [left; auto |].
  destruct (dec_add_value s1 c1 e1 s2 c2 e2) as (s & c & e & -> & V).
  destruct (dec_add_value s1' c1' e1' s2' c2' e2') as (s' & c' & e' & -> & V').
  apply same_value_fix, same_value_Fin. rewrite V, V', Va, Vb. reflexivity.
Qed.

Lemma same_value_neg a a' : same_value a a' -> same_value (dec_neg a) (dec_neg a').
Proof.
  intros Ha.
  destruct (same_value_cases _ _ Ha) as [[-> ->] | (s1 & c1 & e1 & s1' & c1' & e1' & -> & -> & Va)];
    [left; auto |].
  change (dec_neg (Fin s1 c1 e1)) with (Fin (negb s1) c1 e1).
  change (dec_neg (Fin s1' c1' e1')) with (Fin (negb s1') c1' e1').
  apply same_value_Fin.
  change (Fin (negb s1) c1 e1) with (dec_neg (Fin s1 c1 e1)).
  change (Fin (negb s1') c1' e1') with (dec_neg (Fin s1' c1' e1')).
  rewrite !dec_neg_value, Va. reflexivity.
Qed.

Lemma same_value_sub a a' b b' :
  same_value a a' -> same_value b b' ->
  same_value (dec_sub prec a b) (dec_sub prec a' b').
Proof. intros Ha Hb. apply same_value_add; [assumption | apply same_value_neg; assumption]. Qed.

Lemma same_value_mul a a' b b' :
  same_value a a' -> same_value b b' ->
  same_value (dec_mul prec a b) (dec_mul prec a' b').
Proof.
  intros Ha Hb.
  destruct (same_value_cases _ _ Ha) as [[-> ->] | (s1 & c1 & e1 & s1' & c1' & e1' & -> & -> & Va)];
    [left; auto |].
  destruct (same_value_cases _ _ Hb) as [[-> ->] | (s2 & c2 & e2 & s2' & c2' & e2' & -> & -> & Vb)];
    [left; auto |].
  unfold dec_mul. apply same_value_fix, same_value_Fin.
  rewrite !dec_mul_value, Va, Vb. reflexivity.
Qed.

End Congruence.

Section DivisionCongruence.
Variable prec : Z.

Lemma div_eucl_pair a b : N.div_eucl a b = ((a / b)%N, (a mod b)%N).
Proof. unfold N.div, N.modulo. destruct (N.div_eucl a b); reflexivity. Qed.

Lemma div_eucl_scale a b m :
  m <> 0%N -> N.div_eucl (a * m) (b * m) = ((a / b)%N, ((a mod b) * m)%N).
Proof.
  intros Hm. rewrite div_eucl_pair.
  rewrite N.Div0.div_mul_cancel_r by assumption.
  rewrite N.Div0.mul_mod_distr_r. reflexivity.
Qed.

(** After the integer division only the quotient and whether the remainder
    is zero matter, and the number of stripped zeros does not change the
    value. *)
Lemma div_finish s coeff exp r r' f f' :
  (r = 0%N <-> r' = 0%N) ->
  same_value
    (if (r =? 0)%N then
       let '(coeff', exp') := strip_zeros f coeff exp in fix_ prec (Fin s coeff' exp')
     else fix_ prec (Fin s (if (coeff mod 5 =? 0)%N then coeff + 1 else coeff)%N exp))
    (if (r' =? 0)%N then
       let '(coeff', exp') := strip_zeros f' coeff exp in fix_ prec (Fin s coeff' exp')
     else fix_ prec (Fin s (if (coeff mod 5 =? 0)%N then coeff + 1 else coeff)%N exp)).
Proof.
  intros Hr.
  destruct (N.eqb_spec r 0) as [H | H], (N.eqb_spec r' 0) as [H' | H']; try tauto.
  - destruct (strip_zeros f coeff exp) as [c1 x1] eqn:H1.
    destruct (strip_zeros f' coeff exp) as [c2 x2] eqn:H2.
    apply same_value_fix. right.
    apply (strip_zeros_deq _ s) in H1, H2.
    rewrite dec_eqb_sym in H1. eapply dec_eqb_trans; eassumption.
  - apply same_value_refl.
Qed.

Lemma mul_pow10_nonzero c k : c <> 0%N -> (c * pow10 k)%N <> 0%N.
Proof. intros Hc. pose proof (pow10_pos k). nia. Qed.

(** Trailing zeros on the dividend do not change the quotient. *)
Lemma dec_div_scale_l s1 c1 e1 k b :
  c1 <> 0%N -> 0 <= k ->
  same_value (dec_div prec (Fin s1 (c1 * pow10 k) (e1 - k)) b)
             (dec_div prec (Fin s1 c1 e1) b).
Proof.
  intros Hc1 Hk. destruct b as [s2 c2 e2|]; [| left; auto].
  unfold dec_div. destruct (N.eqb_spec c2 0) as [Hc2 | Hc2]; [left; auto |].
  pose proof (mul_pow10_nonzero c1 k Hc1) as Hck.
  destruct (N.eqb_spec (c1 * pow10 k) 0) as [|_]; [tauto |].
  destruct (N.eqb_spec c1 0) as [|_]; [tauto |].
  cbv zeta. rewrite ndigits_scale by assumption.
  set (shift := ndigits c2 - ndigits c1 + prec + 1).
  replace (ndigits c2 - (ndigits c1 + k) + prec + 1) with (shift - k) by lia.
  replace (e1 - k - e2 - (shift - k)) with (e1 - e2 - shift) by lia.
  assert (exists q r r',
    (if 0 <=? shift - k then N.div_eucl (c1 * pow10 k * pow10 (shift - k)) c2
     else N.div_eucl (c1 * pow10 k) (c2 * pow10 (- (shift - k)))) = (q, r') /\
    (if 0 <=? shift then N.div_eucl (c1 * pow10 shift) c2
     else N.div_eucl c1 (c2 * pow10 (- shift))) = (q, r) /\
    (r' = 0%N <-> r = 0%N)) as (q & r & r' & -> & -> & Hr).
  { destruct (Z.leb_spec 0 (shift - k)) as [H1 | H1].
    - destruct (Z.leb_spec 0 shift) as [_ | ?]; [| lia].
      replace (c1 * pow10 k * pow10 (shift - k))%N with (c1 * pow10 shift)%N.
      + rewrite div_eucl_pair. do 3 eexists. repeat split; auto.
      + rewrite <- N.mul_assoc, <- pow10_add by lia. do 2 f_equal. lia.
    - destruct (Z.leb_spec 0 shift) as [H2 | H2].
      + replace (c1 * pow10 k)%N with (c1 * pow10 shift * pow10 (k - shift))%N.
        2:{ rewrite <- N.mul_assoc, <- pow10_add by lia. do 2 f_equal. lia. }
        replace (- (shift - k)) with (k - shift) by lia.
        pose proof (pow10_pos (k - shift)) as Hpos.
        rewrite div_eucl_scale by lia. rewrite div_eucl_pair.
        do 3 eexists. repeat split; auto; nia.
      + replace (c2 * pow10 (- (shift - k)))%N with (c2 * pow10 (- shift) * pow10 k)%N.
        2:{ rewrite <- N.mul_assoc, <- pow10_add by lia. do 2 f_equal. lia. }
        pose proof (pow10_pos k) as Hpos.
        rewrite div_eucl_scale by lia. rewrite div_eucl_pair.
        do 3 eexists. repeat split; auto; nia. }
  apply div_finish. assumption.
Qed.

(** Trailing zeros on the divisor do not change the quotient. *)
Lemma dec_div_scale_r a s2 c2 e2 j :
  c2 <> 0%N -> 0 <= j ->
  same_value (dec_div prec a (Fin s2 (c2 * pow10 j) (e2 - j)))
             (dec_div prec a (Fin s2 c2 e2)).
Proof.
  intros Hc2 Hj. destruct a as [s1 c1 e1|]; [| left; auto].
  unfold dec_div.
  pose proof (mul_pow10_nonzero c2 j Hc2) as Hcj.
  destruct (N.eqb_spec (c2 * pow10 j) 0) as [|_]; [tauto |].
  destruct (N.eqb_spec c2 0) as [|_]; [tauto |].
  destruct (N.eqb_spec c1 0) as [Hc1 | Hc1].
  { rewrite !fix_zero. right. apply dec_eqb_value. cbn [dec_value signed].
    destruct (xorb s1 s2); cbn; ring. }
  cbv zeta. rewrite ndigits_scale by assumption.
  set (shift := ndigits c2 - ndigits c1 + prec + 1).
  replace (ndigits c2 + j - ndigits c1 + prec + 1) with (shift + j) by lia.
  replace (e1 - (e2 - j) - (shift + j)) with (e1 - e2 - shift) by lia.
  assert (exists q r r',
    (if 0 <=? shift + j then N.div_eucl (c1 * pow10 (shift + j)) (c2 * pow10 j)
     else N.div_eucl c1 (c2 * pow10 j * pow10 (- (shift + j)))) = (q, r') /\
    (if 0 <=? shift then N.div_eucl (c1 * pow10 shift) c2
     else N.div_eucl c1 (c2 * pow10 (- shift))) = (q, r) /\
    (r' = 0%N <-> r = 0%N)) as (q & r & r' & -> & -> & Hr).
  { destruct (Z.leb_spec 0 shift) as [H1 | H1].
    - destruct (Z.leb_spec 0 (shift + j)) as [_ | ?]; [| lia].
      rewrite pow10_add, N.mul_assoc by lia.
      pose proof (pow10_pos j) as Hpos.
      rewrite div_eucl_scale by lia. rewrite div_eucl_pair.
      do 3 eexists. repeat split; auto; nia.
    - destruct (Z.leb_spec 0 (shift + j)) as [H2 | H2].
      + replace (c2 * pow10 j)%N with (c2 * pow10 (- shift) * pow10 (shift + j))%N.
        2:{ rewrite <- N.mul_assoc, <- pow10_add by lia. do 2 f_equal. lia. }
        pose proof (pow10_pos (shift + j)) as Hpos.
        rewrite div_eucl_scale by lia. rewrite div_eucl_pair.
        do 3 eexists. repeat split; auto; nia.
      + replace (c2 * pow10 j * pow10 (- (shift + j)))%N with (c2 * pow10 (- shift))%N.
        * rewrite div_eucl_pair. do 3 eexists. repeat split; auto.
        * rewrite <- N.mul_assoc, <- pow10_add by lia. do 2 f_equal. lia. }
  apply div_finish. assumption.
Qed.

(** Two finite decimals of the same value: one is the other with trailing
    zeros, or both are zero. *)
Lemma same_value_scaled s1 c1 e1 s2 c2 e2 :
  dec_eqb (Fin s1 c1 e1) (Fin s2 c2 e2) = true ->
  (c1 = 0%N /\ c2 = 0%N) \/
  (c2 <> 0%N /\ s1 = s2 /\ exists k, 0 <= k /\ c1 = (c2 * pow10 k)%N /\ e1 = e2 - k) \/
  (c1 <> 0%N /\ s1 = s2 /\ exists k, 0 <= k /\ c2 = (c1 * pow10 k)%N /\ e2 = e1 - k).
Proof.
  intros H. destruct (Z.le_gt_cases e1 e2) as [Hle | Hgt].
  - apply dec_eqb_cases in H; [| assumption]. destruct H as [Hc Hs].
    destruct (N.eq_dec c2 0) as [-> | Hc2]; [left; split; [rewrite Hc |]; reflexivity |].
    right. left. split; [assumption |]. split; [auto |].
    exists (e2 - e1). repeat split; [lia | assumption | lia].
  - rewrite dec_eqb_sym in H. apply dec_eqb_cases in H; [| lia]. destruct H as [Hc Hs].
    destruct (N.eq_dec c1 0) as [-> | Hc1]; [left; split; [| rewrite Hc]; reflexivity |].
    right. right. split; [assumption |]. split; [symmetry; auto |].
    exists (e1 - e2). repeat split; [lia | assumption | lia].
Qed.

Lemma dec_div_zero_l s1 e1 b :
  is_nan b = false -> is_zero b = false ->
  is_zero (dec_div prec (Fin s1 0 e1) b) = true.
Proof.
  destruct b as [s2 c2 e2|]; [| discriminate]. cbn [is_zero]. intros _ Hz.
  unfold dec_div. rewrite Hz. cbn [N.eqb]. rewrite fix_zero. reflexivity.
Qed.

Lemma is_zero_same_value a b : is_zero a = true -> is_zero b = true -> same_value a b.
Proof.
  destruct a as [s1 c1 e1|], b as [s2 c2 e2|]; try discriminate. cbn [is_zero].
  intros H1 H2. apply N.eqb_eq in H1, H2. subst. right.
  apply dec_eqb_value. cbn [dec_value]. destruct s1, s2; cbn; ring.
Qed.

Lemma same_value_div_l a a' b :
  same_value a a' -> same_value (dec_div prec a b) (dec_div prec a' b).
Proof.
  intros Ha.
  destruct (same_value_cases _ _ Ha) as [[-> ->] | (s1 & c1 & e1 & s1' & c1' & e1' & -> & -> & Va)];
    [left; auto |].
  apply dec_eqb_value in Va.
  destruct (is_nan b) eqn:Nb; [destruct b; [discriminate | left; auto] |].
  destruct (is_zero b) eqn:Zb.
  { left. rewrite !dec_div_nan, Zb, !orb_true_r. auto. }
  destruct (same_value_scaled _ _ _ _ _ _ Va)
    as [[-> ->] | [(Hc & -> & k & Hk & -> & ->) | (Hc & -> & k & Hk & -> & ->)]].
  - apply is_zero_same_value; apply dec_div_zero_l; assumption.
  - apply dec_div_scale_l; assumption.
  - apply same_value_sym, dec_div_scale_l; assumption.
Qed.

Lemma same_value_div_r a b b' :
  same_value b b' -> same_value (dec_div prec a b) (dec_div prec a b').
Proof.
  intros Hb.
  destruct (same_value_cases _ _ Hb) as [[-> ->] | (s2 & c2 & e2 & s2' & c2' & e2' & -> & -> & Vb)];
    [destruct a; left; auto |].
  apply dec_eqb_value in Vb.
  destruct (same_value_scaled _ _ _ _ _ _ Vb)
    as [[-> ->] | [(Hc & -> & k & Hk & -> & ->) | (Hc & -> & k & Hk & -> & ->)]].
  - left. rewrite !dec_div_nan. cbn [is_zero N.eqb]. rewrite !orb_true_r. auto.
  - apply dec_div_scale_r; assumption.
  - apply same_value_sym, dec_div_scale_r; assumption.
Qed.

Lemma same_value_div a a' b b' :
  same_value a a' -> same_value b b' ->
  same_value (dec_div prec a b) (dec_div prec a' b').
Proof.
  intros Ha Hb. eapply same_value_trans;
    [apply same_value_div_l; eassumption | apply same_value_div_r; assumption].
Qed.

End DivisionCongruence.

(** ** The program reads values, not representations *)

Section RepresentationIndependence.
Variable prec : Z.
Variable hash_nan : Z.
Variable hash_str : string -> Z.

Create HintDb samev.
Local Hint Resolve same_value_add same_value_sub same_value_mul same_value_div
  same_value_refl : samev.

Lemma same_value_normalize a a' :
  same_value a a' -> same_value (normalize prec a) (normalize prec a').
Proof.
  unfold normalize. intros [[Ha Hb] | H].
  - left. rewrite !normalize_nan_iff. auto.
  - right. apply normalize_deq. assumption.
Qed.

Lemma same_value_hash a a' :
  same_value a a' ->
  hash_Decimal hash_nan (normalize prec a) = hash_Decimal hash_nan (normalize prec a').
Proof.
  intros [[Ha Hb] | H].
  - destruct a, a'; try discriminate. reflexivity.
  - apply normalized_eqb_hash. apply normalize_deq. assumption.
Qed.

Lemma same_value_hash_item a a' :
  same_value a a' ->
  hash_of_item hash_nan hash_str (nan_or_normalized prec a) =
  hash_of_item hash_nan hash_str (nan_or_normalized prec a').
Proof.
  intros H. unfold nan_or_normalized. rewrite (same_value_nan _ _ H).
  destruct (is_nan a'); cbn [negb hash_of_item]; [reflexivity |].
  apply same_value_hash. assumption.
Qed.

Lemma same_point_eq p p' q q' :
  same_point p p' -> same_point q q' -> Point_eq prec p q = Point_eq prec p' q'.
Proof.
  intros [Hx Hy] [Hx' Hy']. unfold Point_eq.
  f_equal; apply same_value_eqb; apply same_value_normalize; assumption.
Qed.

Lemma same_point_hash p p' :
  same_point p p' ->
  Point_hash prec hash_nan hash_str p = Point_hash prec hash_nan hash_str p'.
Proof.
  intros [Hx Hy]. unfold Point_hash. cbn [map hash_of_item].
  rewrite (same_value_hash _ _ Hx), (same_value_hash _ _ Hy). reflexivity.
Qed.

Lemma same_line_vertical l l' : same_line l l' -> is_vertical l = is_vertical l'.
Proof.
  intros (Hs & Hi & _). unfold is_vertical.
  rewrite (same_value_nan _ _ Hs), (same_value_nan _ _ Hi). reflexivity.
Qed.

Lemma same_line_horizontal l l' : same_line l l' -> is_horizontal l = is_horizontal l'.
Proof.
  intros (Hs & _). unfold is_horizontal. apply same_value_eqb; [assumption | apply same_value_refl].
Qed.

Lemma same_line_eq l l' m m' :
  same_line l l' -> same_line m m' -> Line_eq prec l m = Line_eq prec l' m'.
Proof.
  intros Hl Hm. unfold Line_eq.
  rewrite (same_line_vertical _ _ Hl), (same_line_vertical _ _ Hm).
  destruct Hl as (Hs & Hi & Hx), Hm as (Hs' & Hi' & Hx').
  rewrite (same_value_nan _ _ Hx).
  rewrite (same_value_eqb _ _ _ _ (same_value_normalize _ _ Hx) (same_value_normalize _ _ Hx')).
  rewrite (same_value_eqb _ _ _ _ (same_value_normalize _ _ Hs) (same_value_normalize _ _ Hs')).
  rewrite (same_value_eqb _ _ _ _ (same_value_normalize _ _ Hi) (same_value_normalize _ _ Hi')).
  reflexivity.
Qed.

Lemma same_line_hash l l' :
  same_line l l' ->
  Line_hash prec hash_nan hash_str l = Line_hash prec hash_nan hash_str l'.
Proof.
  intros (Hs & Hi & Hx). unfold Line_hash. cbv zeta. cbn [map].
  rewrite (same_value_hash_item _ _ Hs), (same_value_hash_item _ _ Hi),
    (same_value_hash_item _ _ Hx). reflexivity.
Qed.

Lemma same_point_from_points p0 p0' p1 p1' :
  same_point p0 p0' -> same_point p1 p1' ->
  same_line (from_points prec p0 p1) (from_points prec p0' p1').
Proof.
  intros [H0x H0y] [H1x H1y]. unfold from_points. cbv zeta.
  assert (same_value (dec_sub prec (Point_x p1) (Point_x p0))
                     (dec_sub prec (Point_x p1') (Point_x p0'))) as Hden by auto with samev.
  rewrite (same_value_eqb _ _ _ _ Hden (same_value_refl (dec_of_int 0))).
  destruct (negb _); unfold same_line; cbn [Line_slope Line_intercept Line_x];
    repeat split; auto 8 with samev.
Qed.

Lemma same_contains_point l l' p p' :
  same_line l l' -> same_point p p' ->
  contains_point prec l p = contains_point prec l' p'.
Proof.
  intros (Hs & Hi & Hx) [Hpx Hpy]. unfold contains_point.
  apply same_value_eqb; auto with samev.
Qed.

Lemma same_perpendicular l l' p p' :
  same_line l l' -> same_point p p' ->
  same_point (perpendicular_intersection_point prec l p)
             (perpendicular_intersection_point prec l' p').
Proof.
  intros Hl Hp. unfold perpendicular_intersection_point.
  rewrite (same_line_vertical _ _ Hl), (same_line_horizontal _ _ Hl).
  destruct Hl as (Hs & Hi & Hx), Hp as [Hpx Hpy].
  destruct (is_vertical l'); [split; assumption |].
  destruct (is_horizontal l'); [split; assumption |].
  cbv zeta. split; cbn [Point_x Point_y]; auto 12 with samev.
Qed.

Lemma same_folded_point l l' p p' :
  same_line l l' -> same_point p p' ->
  same_point (folded_point prec l p) (folded_point prec l' p').
Proof.
  intros Hl Hp. unfold folded_point.
  rewrite (same_contains_point _ _ _ _ Hl Hp).
  destruct (contains_point prec l' p'); [assumption |]. cbv zeta.
  destruct (same_perpendicular _ _ _ _ Hl Hp) as [Hx Hy]. destruct Hp as [Hpx Hpy].
  split; cbn [Point_x Point_y]; auto with samev.
Qed.

Lemma same_scan_for_match f f' pts pts' :
  same_point f f' -> Forall2 same_point pts pts' ->
  scan_for_match prec f pts = scan_for_match prec f' pts'.
Proof.
  intros Hf H. induction H as [|q q' r r' Hq _ IH]; [reflexivity |].
  cbn [scan_for_match]. rewrite (same_point_eq _ _ _ _ Hq Hf), IH. reflexivity.
Qed.

Lemma same_fold_each l l' all all' todo todo' :
  same_line l l' -> Forall2 same_point all all' -> Forall2 same_point todo todo' ->
  fold_each prec l all todo = fold_each prec l' all' todo'.
Proof.
  intros Hl Hall H. induction H as [|p p' r r' Hp _ IH]; [reflexivity |].
  cbn [fold_each]. cbv zeta.
  pose proof (same_folded_point _ _ _ _ Hl Hp) as Hf.
  rewrite (same_point_eq _ _ _ _ Hf Hp), (same_scan_for_match _ _ _ _ Hf Hall), IH.
  reflexivity.
Qed.

(** The symmetry test reads the values of the coordinates only. *)
Lemma same_is_symmetry_line l l' pts pts' :
  same_line l l' -> Forall2 same_point pts pts' ->
  is_symmetry_line prec l pts = is_symmetry_line prec l' pts'.
Proof. intros Hl H. apply same_fold_each; assumption. Qed.

Lemma same_bisection p0 p0' p1 p1' :
  same_point p0 p0' -> same_point p1 p1' ->
  same_point (bp_point (BisectionPoint_init prec p0 p1))
             (bp_point (BisectionPoint_init prec p0' p1')).
Proof.
  intros [H0x H0y] [H1x H1y]. unfold BisectionPoint_init. cbv zeta.
  split; cbn [bp_point Point_x Point_y]; auto 8 with samev.
Qed.

Lemma same_fold_add l l' : Forall2 same_value l l' -> forall acc acc',
  same_value acc acc' ->
  same_value (fold_left (dec_add prec) l acc) (fold_left (dec_add prec) l' acc').
Proof.
  induction 1 as [|d d' r r' Hd _ IH]; intros acc acc' Hacc; cbn [fold_left];
    [assumption |].
  apply IH. auto with samev.
Qed.

Lemma same_py_sum l l' :
  Forall2 same_value l l' -> same_value (py_sum prec l) (py_sum prec l').
Proof.
  intros H. destruct H as [|d d' r r' Hd Hr]; [apply same_value_refl |].
  unfold py_sum. apply same_fold_add; auto with samev.
Qed.

Lemma Forall2_map_same (f : Point -> Decimal) pts pts' :
  (forall p p', same_point p p' -> same_value (f p) (f p')) ->
  Forall2 same_point pts pts' -> Forall2 same_value (map f pts) (map f pts').
Proof.
  intros Hf H. induction H; cbn [map]; constructor; auto.
Qed.

Lemma same_centroid self self' :
  Forall2 same_point (points self) (points self') ->
  same_point (_centroid prec self) (_centroid prec self').
Proof.
  intros H. unfold _centroid. cbv zeta. rewrite (Forall2_length H).
  split; cbn [Point_x Point_y]; apply same_value_div; try apply same_value_refl;
    apply same_py_sum, Forall2_map_same; try assumption; intros p p' [Hx Hy]; assumption.
Qed.

Lemma same_set_contains l l' v v' :
  same_line l l' ->
  Forall2 (fun e e' => fst e = fst e' /\ same_line (snd e) (snd e')) v v' ->
  set_contains (Line_eq prec) (Line_hash prec hash_nan hash_str l) l v =
  set_contains (Line_eq prec) (Line_hash prec hash_nan hash_str l') l' v'.
Proof.
  intros Hl H. unfold set_contains. rewrite (same_line_hash _ _ Hl).
  induction H as [|e e' r r' [He1 He2] _ IH]; [reflexivity |].
  cbn [existsb]. rewrite IH, He1, (same_line_eq _ _ _ _ He2 Hl). reflexivity.
Qed.

Lemma same_offer st st' l l' :
  same_state st st' -> same_line l l' ->
  same_state (offer prec hash_nan hash_str st l) (offer prec hash_nan hash_str st' l').
Proof.
  destruct st as [v y], st' as [v' y']. intros [Hv Hy] Hl. cbn [fst snd] in Hv, Hy.
  unfold offer. cbv zeta. rewrite (same_set_contains _ _ _ _ Hl Hv).
  destruct (negb _); [| split; assumption].
  split; cbn [fst snd].
  - constructor; [split; [apply same_line_hash |]; assumption | assumption].
  - apply Forall2_app; [assumption | constructor; [assumption | constructor]].
Qed.

Lemma same_fold_offer (f f' : Point -> Line) pts pts' :
  (forall p p', same_point p p' -> same_line (f p) (f' p')) ->
  Forall2 same_point pts pts' -> forall st st', same_state st st' ->
  same_state (fold_left (fun st p => offer prec hash_nan hash_str st (f p)) pts st)
             (fold_left (fun st p => offer prec hash_nan hash_str st (f' p)) pts' st').
Proof.
  intros Hf H. induction H as [|p p' r r' Hp _ IH]; intros st st' Hst; cbn [fold_left];
    [assumption |].
  apply IH, same_offer; auto.
Qed.

Lemma same_pair_loop cent cent' pts pts' :
  same_point cent cent' -> Forall2 same_point pts pts' -> forall st st',
  same_state st st' ->
  same_state (pair_loop prec hash_nan hash_str cent pts st)
             (pair_loop prec hash_nan hash_str cent' pts' st').
Proof.
  intros Hc H. induction H as [|p p' r r' Hp Hr IH]; intros st st' Hst; cbn [pair_loop];
    [assumption |].
  apply IH.
  apply (same_fold_offer
           (fun p1 => from_points prec cent (bp_point (BisectionPoint_init prec p p1)))
           (fun p1 => from_points prec cent' (bp_point (BisectionPoint_init prec p' p1))));
    try assumption.
  intros q q' Hq. apply same_point_from_points; [assumption |].
  apply same_bisection; assumption.
Qed.

Lemma same_candidates self self' :
  Forall2 same_point (points self) (points self') ->
  Forall2 same_line (_candidate_symmetry_lines prec hash_nan hash_str self)
                    (_candidate_symmetry_lines prec hash_nan hash_str self').
Proof.
  intros H. unfold _candidate_symmetry_lines. rewrite (Forall2_length H).
  destruct (_ <? 3)%nat; [constructor |]. cbv zeta.
  pose proof (same_centroid _ _ H) as Hc.
  unfold vertex_loop.
  apply (same_fold_offer (from_points prec (_centroid prec self))
                         (from_points prec (_centroid prec self'))); try assumption.
  - intros p p' Hp. apply same_point_from_points; assumption.
  - apply same_pair_loop; try assumption. split; constructor.
Qed.

(** Writing a coordinate with other trailing zeros (50, 50.0, 5E+1) or a
    zero with another sign changes nothing: the finder returns the same
    lines in the same order, each field with the same value. *)
Lemma same_find self self' :
  Forall2 same_point (points self) (points self') ->
  Forall2 same_line (find prec hash_nan hash_str self) (find prec hash_nan hash_str self').
Proof.
  intros H. rewrite !find_is_filter.
  pose proof (same_candidates _ _ H) as Hc.
  induction Hc as [|l l' r r' Hl _ IH]; [constructor |].
  cbn [filter]. rewrite (same_is_symmetry_line _ _ _ _ Hl H).
  destruct (is_symmetry_line prec l' (points self')); [constructor |]; assumption.
Qed.

Lemma same_set_add s s' p p' :
  Forall2 (fun e e' => fst e = fst e' /\ same_point (snd e) (snd e')) s s' ->
  same_point p p' ->
  Forall2 (fun e e' => fst e = fst e' /\ same_point (snd e) (snd e'))
    (set_add prec hash_nan hash_str s p) (set_add prec hash_nan hash_str s' p').
Proof.
  intros Hs Hp. unfold set_add. cbv zeta.
  assert (set_contains (Point_eq prec) (Point_hash prec hash_nan hash_str p) p s =
          set_contains (Point_eq prec) (Point_hash prec hash_nan hash_str p') p' s') as ->.
  { unfold set_contains. rewrite (same_point_hash _ _ Hp).
    induction Hs as [|e e' r r' [He1 He2] _ IH]; [reflexivity |].
    cbn [existsb]. rewrite IH, He1, (same_point_eq _ _ _ _ He2 Hp). reflexivity. }
  destruct (set_contains _ _ p' s'); [assumption |].
  apply Forall2_app; [assumption |].
  constructor; [split; [apply same_point_hash |]; assumption | constructor].
Qed.

(** [set(points)] keeps the same positions of the input whatever the
    representation of the coordinates. *)
Lemma same_py_set l l' :
  Forall2 same_point l l' ->
  Forall2 same_point (py_set prec hash_nan hash_str l) (py_set prec hash_nan hash_str l').
Proof.
  intros H. unfold py_set.
  assert (forall s s',
    Forall2 (fun e e' => fst e = fst e' /\ same_point (snd e) (snd e')) s s' ->
    Forall2 (fun e e' => fst e = fst e' /\ same_point (snd e) (snd e'))
      (fold_left (set_add prec hash_nan hash_str) l s)
      (fold_left (set_add prec hash_nan hash_str) l' s')) as Hfold.
  { induction H as [|p p' r r' Hp _ IH]; intros s s' Hs; cbn [fold_left]; [assumption |].
    apply IH, same_set_add; assumption. }
  specialize (Hfold [] [] (Forall2_nil _)).
  induction Hfold as [|e e' r r' [_ He] _ IH]; cbn [map]; constructor; assumption.
Qed.

End RepresentationIndependence.

(** ** The tolerance of [normalize] *)

Section NormalizeTolerance.
Variable prec : Z.

Lemma normalize_error d :
  2 <= prec ->
  (Qabs (dec_value (normalize prec d) - dec_value d) <= half_unit (prec - 1) d)%Q.
Proof.
  intros Hp. destruct d as [s c e|]; [| cbn; discriminate].
  unfold normalize, half_unit.
  pose proof (normalize_fix_deq (prec - 1) s c e) as H.
  destruct (normalize_is_Fin (prec - 1) s c e) as (c' & e' & Hn).
  destruct (fix_is_Fin (prec - 1) s c e) as (c'' & e'' & Hf).
  rewrite Hn, Hf in H. apply dec_eqb_value in H. rewrite Hn, H, <- Hf.
  apply fix_error_bound. lia.
Qed.

Lemma normalize_fits d :
  fits (prec - 1) d -> dec_eqb (normalize prec d) d = true.
Proof.
  destruct d as [s c e|]; [| intros []]. cbn [fits]. intros H.
  unfold normalize. pose proof (normalize_fix_deq (prec - 1) s c e) as Hn.
  rewrite fix_fits in Hn by assumption. assumption.
Qed.


(** Equal points are close: each coordinate differs by at most the two
    rounding half-units. *)
Lemma dec_eqb_normalize_close a b :
  2 <= prec ->
  dec_eqb (normalize prec a) (normalize prec b) = true ->
  (Qabs (dec_value a - dec_value b) <= half_unit (prec - 1) a + half_unit (prec - 1) b)%Q.
Proof.
  intros Hp H. apply dec_eqb_iff in H. destruct H as (_ & _ & V).
  pose proof (normalize_error a Hp) as Ea. pose proof (normalize_error b Hp) as Eb.
  apply Qabs_diff_Qle_condition in Ea, Eb. apply Qabs_diff_Qle_condition. lra.
Qed.

End NormalizeTolerance.

(** ** More on equality, [from_points] and folding *)

Section ListFacts.
Context {A : Type}.

Lemma ForallOrdPairs_perm (R : A -> A -> Prop) l l' :
  (forall a b, R a b -> R b a) ->
  Permutation l l' -> ForallOrdPairs R l -> ForallOrdPairs R l'.
Proof.
  intros Hsym Hp. induction Hp as [| x l l' Hp IH | x y l | l l' l'' _ IH1 _ IH2]; intros H.
  - constructor.
  - inversion H as [| a r Ha Hr]; subst. constructor; [| auto].
    eapply Permutation_Forall; eassumption.
  - inversion H as [| a r Ha Hr]; subst. inversion Hr as [| b r' Hb Hr']; subst.
    inversion Ha as [| c r'' Hyx Hy]; subst.
    constructor; [constructor; [apply Hsym; assumption | assumption] |].
    constructor; assumption.
  - auto.
Qed.

Lemma filter_at_most_one (R : A -> A -> bool) (P : A -> bool) l :
  ForallOrdPairs (fun a b => R a b = false) l ->
  (forall a b, In a l -> In b l -> P a = true -> P b = true -> R a b = true) ->
  (List.length (filter P l) <= 1)%nat.
Proof.
  induction 1 as [| a l Ha Hl IH]; intros Heq; cbn [filter]; [cbn; lia |].
  destruct (P a) eqn:Pa.
  - destruct (filter P l) as [| b r] eqn:F; [cbn; lia | exfalso].
    assert (In b (filter P l)) as Hb by (rewrite F; left; reflexivity).
    apply filter_In in Hb. destruct Hb as [Hin Pb].
    rewrite Forall_forall in Ha. specialize (Ha b Hin).
    rewrite (Heq a b (or_introl eq_refl) (or_intror Hin) Pa Pb) in Ha. discriminate.
  - apply IH. intros x y Hx Hy. apply Heq; right; assumption.
Qed.


End ListFacts.

Section EqualityMore.
Variable prec : Z.

Lemma same_value_eqb_true a b : same_value a b -> is_nan a = false -> dec_eqb a b = true.
Proof. intros [[Ha _] | H] Hn; [congruence | assumption]. Qed.




Lemma is_zero_mul a b :
  is_zero a = true -> is_nan b = false -> is_zero (dec_mul prec a b) = true.
Proof.
  destruct a as [s1 c1 e1|], b as [s2 c2 e2|]; try discriminate. cbn [is_zero].
  intros H _. apply N.eqb_eq in H. subst c1. unfold dec_mul. rewrite N.mul_0_l, fix_zero.
  reflexivity.
Qed.

End EqualityMore.

(** ** Axis-parallel candidates *)

Section AxisParallel.
Variable prec : Z.
Variable hash_nan : Z.
Variable hash_str : string -> Z.

Lemma target_finite pts q :
  Forall finite_point pts -> candidate_target prec pts q -> finite_point q.
Proof.
  intros Hfin Hq. rewrite Forall_forall in Hfin.
  destruct Hq as [Hq | (p0 & p1 & H0 & H1 & ->)]; [auto |].
  apply bisection_finite; auto.
Qed.

Lemma vertical_lines_equal cent q q' :
  1 <= prec -> finite_point cent -> finite_point q -> finite_point q' ->
  is_vertical (from_points prec cent q) = true ->
  is_vertical (from_points prec cent q') = true ->
  Line_eq prec (from_points prec cent q) (from_points prec cent q') = true.
Proof.
  intros Hp Hc Hq Hq' V V'.
  destruct (from_points_well_formed prec cent q Hp Hc Hq) as [_ E].
  destruct (from_points_well_formed prec cent q' Hp Hc Hq') as [_ E'].
  rewrite V in E. rewrite V' in E'. symmetry in E, E'.
  rewrite !from_points_by_abscissa, E, E' by assumption.
  apply Line_eq_true. left. cbn [Line_x]. repeat split.
  apply normalize_deq. rewrite dec_eqb_sym in E'. eapply dec_eqb_trans; eassumption.
Qed.

Lemma horizontal_lines_equal cent q q' :
  1 <= prec -> finite_point cent -> finite_point q -> finite_point q' ->
  is_horizontal (from_points prec cent q) = true ->
  is_horizontal (from_points prec cent q') = true ->
  Line_eq prec (from_points prec cent q) (from_points prec cent q') = true.
Proof.
  intros Hp Hc Hq Hq' H H'.
  assert (forall t, finite_point t -> is_horizontal (from_points prec cent t) = true ->
            is_vertical (from_points prec cent t) = false /\
            same_value (Line_slope (from_points prec cent t)) (dec_of_int 0) /\
            same_value (Line_intercept (from_points prec cent t))
                       (dec_sub prec (Point_y cent) (dec_of_int 0))) as Hshape.
  { intros t Ht Hh.
    destruct (from_points_well_formed prec cent t Hp Hc Ht) as [_ E].
    destruct (dec_eqb (Point_x t) (Point_x cent)) eqn:Ex.
    { rewrite from_points_by_abscissa, Ex in Hh by assumption. discriminate. }
    split; [assumption |].
    pose proof (from_points_horizontal prec cent t Hp Hc Ht Ex) as Hy. rewrite Hh in Hy.
    unfold is_horizontal in Hh. rewrite dec_eqb_zero in Hh.
    rewrite from_points_by_abscissa, Ex in Hh |- * by assumption.
    cbv zeta in Hh |- *. cbn [Line_slope Line_intercept] in Hh |- *.
    split; [apply is_zero_same_value; [assumption | reflexivity] |].
    apply same_value_sub; [right; auto |].
    apply is_zero_same_value; [| reflexivity].
    apply is_zero_mul; [assumption | apply Ht]. }
  destruct (Hshape q Hq H) as (V & S & I). destruct (Hshape q' Hq' H') as (V' & S' & I').
  apply Line_eq_true. right. repeat split; try assumption.
  - apply same_value_eqb_true.
    + apply same_value_normalize. eapply same_value_trans; [eassumption |].
      apply same_value_sym. assumption.
    + unfold normalize. rewrite normalize_nan_iff. apply (same_value_nan _ _ S).
  - apply same_value_eqb_true.
    + apply same_value_normalize. eapply same_value_trans; [eassumption |].
      apply same_value_sym. assumption.
    + unfold normalize. rewrite normalize_nan_iff, (same_value_nan _ _ I), dec_sub_nan.
      destruct Hc as [_ ->]. reflexivity.
Qed.

End AxisParallel.

Section FindCount.
Variable prec : Z.
Variable hash_nan : Z.
Variable hash_str : string -> Z.


End FindCount.

(** ** The formulas without rounding *)

Section ExactGeometry.
Variable prec : Z.

Lemma dec_value_1 : (dec_value (dec_of_int 1) == 1)%Q.
Proof. reflexivity. Qed.

Lemma dec_value_0 : (dec_value (dec_of_int 0) == 0)%Q.
Proof. reflexivity. Qed.

Lemma dec_value_two : (dec_value (Fin false 20 (-1)) == 2)%Q.
Proof. reflexivity. Qed.

Lemma adds_exact_total l : forall acc,
  adds_exact prec acc l ->
  (dec_value (fold_left (dec_add prec) l acc) == dec_value acc + total l)%Q.
Proof.
  induction l as [|d l IH]; intros acc H; cbn [fold_left total].
  - ring.
  - destruct H as [H1 H2]. rewrite (IH _ H2). unfold exact_add in H1. rewrite H1. ring.
Qed.

Lemma py_sum_total l : sum_exact prec l -> (dec_value (py_sum prec l) == total l)%Q.
Proof.
  destruct l as [|d l]; [reflexivity |]. intros [H1 H2].
  unfold py_sum. rewrite (adds_exact_total _ _ H2). unfold exact_add in H1.
  rewrite H1, dec_value_0. cbn [total]. ring.
Qed.

Lemma dec_value_of_nat n : (dec_value (dec_of_int (Z.of_nat n)) == inject_Z (Z.of_nat n))%Q.
Proof.
  unfold dec_of_int, dec_value. destruct (Z.ltb_spec (Z.of_nat n) 0); [lia |].
  unfold signed. rewrite N2Z.inj_abs_N, Z.abs_eq by lia. cbn. ring.
Qed.

End ExactGeometry.


(** ** The program's own examples, evaluated

    The docstring of [normalize] and the assertions of [tests.py], run
    through the embedding at their precisions. *)

Import Examples.

Ltac in_list := repeat first [left; reflexivity | right].

(** Split a conjunction of closed facts and evaluate each of them. *)
Ltac evaluate :=
  repeat match goal with |- _ /\ _ => split end; vm_compute; reflexivity.

(** The docstring of [normalize]: at precision 10,
    [(0.0 - 100.0/3.0) / (50 - 100.0/3.0)] is [-1.999999999]; its
    [normalize()] at precision 10 is unchanged and at precision 9 is [-2]. *)
Lemma normalize_docstring :
  let third := dec_div 10 (Fin false 1000 (-1)) (Fin false 30 (-1)) in
  let d := dec_div 10 (dec_sub 10 (Fin false 0 (-1)) third)
                      (dec_sub 10 (dec_of_int 50) third) in
  d = almost_minus_two /\
  dec_normalize 10 d = almost_minus_two /\
  normalize 10 d = Fin true 2 0.
Proof. cbv zeta. evaluate. Qed.

(** [test_bisection_point___eq__], [test_from_points],
    [test_from_points_vertical], [test_perpendicular_intersection_point],
    [test_fold_point], [test_fold_point_over_vertical] and
    [test_centroid_triangle]. *)
Lemma tests_py_points_and_lines :
  Point_eq prec100 (mkPoint (Fin false 60 (-1)) (Fin false 15 (-1)))
                   (bp_point (BisectionPoint_init prec100 (pt 4 1) (pt 8 2))) = true /\
  from_points prec100 s0 s1 = mkLine (Fin false 15 (-1)) (Fin true 50 (-1)) NaN /\
  from_points prec100 v0 v1 = mkLine NaN NaN (dec_of_int 4) /\
  Point_eq prec100 (pt 0 2) (perpendicular_intersection_point prec100 line_1_2 (pt 1 1)) = true /\
  Point_eq prec100 (pt 1 3) (perpendicular_intersection_point prec100 line_1_2 (pt 2 2)) = true /\
  Point_eq prec100 (pt (-1) 3) (folded_point prec100 line_1_2 (pt 1 1)) = true /\
  Point_eq prec100 (pt 27 30) (folded_point prec100 (mkLine NaN NaN (dec_of_int 26)) (pt 25 30))
    = true /\
  Point_eq prec100
    (mkPoint (dec_div prec100 (dec_of_int 100) (dec_of_int 3))
             (dec_div prec100 (dec_of_int 100) (dec_of_int 3)))
    (_centroid prec100 (mkFinder test_triangle)) = true.
Proof. evaluate. Qed.

(** [test_candidate_symmetry_lines_triangle], [test_find_square] and
    [test_candidate_symmetry_lines_2_points]. *)
Lemma tests_py_finder :
  same_lines prec100
    (_candidate_symmetry_lines prec100 hash_nan0 hash_str0 (mkFinder test_triangle))
    [mkLine (dec_of_int 1) (dec_of_int 0) NaN;
     mkLine (dec_of_int (-2)) (dec_of_int 100) NaN;
     mkLine (Fin true 5 (-1)) (dec_of_int 50) NaN] = true /\
  same_lines prec100
    (find prec100 hash_nan0 hash_str0 (mkFinder test_square))
    [mkLine (dec_of_int 1) (dec_of_int 0) NaN;
     mkLine (dec_of_int (-1)) (dec_of_int 1502) NaN;
     mkLine NaN NaN (dec_of_int 751);
     mkLine (dec_of_int 0) (dec_of_int 751) NaN] = true /\
  SymmetryLineFinder_init prec100 hash_nan0 hash_str0 insertion_order
    [mkPoint (Fin false 11 (-1)) (Fin false 22 (-1));
     mkPoint (Fin false 33 (-1)) (Fin false 44 (-1))] = Raise ValueError.
Proof. evaluate. Qed.

(** ** The claims *)







(** C3 (the code departs from the claim).  [Line(1.1, 2.1, 3)] and
    [Line(1.1, 2.1, 5)] are equal under [Line.__eq__], which ignores the
    superfluous [x], and have different hashes, because [Line.__hash__]
    mixes [x] in. *)
Theorem C3_equal_lines_with_different_hashes :
  Line_eq 100 line_x3 line_x5 = true /\
  Line_hash 100 hash_nan0 hash_str0 line_x3 = 5291187199766128870 /\
  Line_hash 100 hash_nan0 hash_str0 line_x5 = 6905753926895430929.
Proof. evaluate. Qed.




(** C5 (amended).  When [p1.x - p0.x] is zero, [from_points] is vertical and
    contains neither defining point.  Otherwise, for finite points,
    it contains each defining point for which the slope, the intercept and
    the containment test are computed without rounding. *)
Theorem C5_from_points_contains_its_points (prec : Z) (p0 p1 : Point) :
  (dec_eqb (dec_sub prec (Point_x p1) (Point_x p0)) (dec_of_int 0) = true ->
     is_vertical (from_points prec p0 p1) = true /\
     contains_point prec (from_points prec p0 p1) p0 = false /\
     contains_point prec (from_points prec p0 p1) p1 = false) /\
  (dec_eqb (dec_sub prec (Point_x p1) (Point_x p0)) (dec_of_int 0) = false ->
   finite_point p0 -> finite_point p1 -> from_points_exact prec p0 p1 ->
     (contains_exact prec (from_points prec p0 p1) p0 ->
      contains_point prec (from_points prec p0 p1) p0 = true) /\
     (contains_exact prec (from_points prec p0 p1) p1 ->
      contains_point prec (from_points prec p0 p1) p1 = true)).
Proof.
  rewrite dec_eqb_zero. split.
  - intros Hz. rewrite from_points_vertical by assumption.
    repeat split; try apply contains_point_vertical; reflexivity.
  - intros Hz F0 F1 Hex. apply from_points_contains_exact; assumption.
Qed.

Lemma C5_witness :
  dec_eqb (dec_sub prec28 (Point_x s1) (Point_x s0)) (dec_of_int 0) = false /\
  contains_point prec28 (from_points prec28 s0 s1) s0 = true /\
  contains_point prec28 (from_points prec28 s0 s1) s1 = true.
Proof.
  assert (dec_eqb (dec_sub prec28 (Point_x s1) (Point_x s0)) (dec_of_int 0) = false) as Hden
    by (vm_compute; reflexivity).
  assert (finite_point s0) as F0 by (split; reflexivity).
  assert (finite_point s1) as F1 by (split; reflexivity).
  assert (from_points_exact prec28 s0 s1) as Hex by (vm_compute; repeat split; reflexivity).
  assert (contains_exact prec28 (from_points prec28 s0 s1) s0) as H0
    by (vm_compute; repeat split; reflexivity).
  assert (contains_exact prec28 (from_points prec28 s0 s1) s1) as H1
    by (vm_compute; repeat split; reflexivity).
  split; [exact Hden |].
  destruct (proj2 (C5_from_points_contains_its_points prec28 s0 s1) Hden F0 F1 Hex) as [A B].
  split; [exact (A H0) | exact (B H1)].
Defined.

(** C5, as stated, fails: the line through the distinct points (4, 1) and
    (4, 5) is vertical and contains neither; the line through (0, 0) and
    (3, 1), of slope 0.333...3, does not contain (0, 0). *)
Lemma C5_counterexample :
  Point_eq prec28 v0 v1 = false /\
  contains_point prec28 (from_points prec28 v0 v1) v0 = false /\
  contains_point prec28 (from_points prec28 v0 v1) v1 = false /\
  Point_eq prec28 r0 r1 = false /\
  contains_point prec28 (from_points prec28 r0 r1) r0 = false.
Proof. evaluate. Qed.

(** C6.  On a non-vertical line [contains_point(p)] is true exactly when
    [p.y == p.x*slope + intercept]; on a vertical line it is false for
    every point. *)
Theorem C6_contains_point_equation (prec : Z) (self : Line) (p : Point) :
  (is_vertical self = false ->
     (contains_point prec self p = true <->
      dec_eqb (Point_y p)
        (dec_add prec (dec_mul prec (Point_x p) (Line_slope self)) (Line_intercept self))
      = true)) /\
  (is_vertical self = true -> contains_point prec self p = false).
Proof.
  split.
  - intros _. unfold contains_point. tauto.
  - apply contains_point_vertical.
Qed.

Lemma C6_witness :
  is_vertical square_axis = true /\ contains_point prec28 square_axis (pt 25 7) = false.
Proof.
  assert (is_vertical square_axis = true) as V by reflexivity.
  split; [exact V |].
  exact (proj2 (C6_contains_point_equation prec28 square_axis (pt 25 7)) V).
Defined.

(** C7 (amended).  Every line yielded by [find] is drawn by [from_points]
    from the centroid to a vertex or to the midpoint of two vertices.  If it
    is vertical, its [x] equals [centroid.x].  If it is not, it contains the
    centroid whenever the slope, the intercept and the containment test are
    computed without rounding. *)
Theorem C7_found_lines_and_the_centroid
    (prec hash_nan : Z) (hash_str : string -> Z) (self : SymmetryLineFinder) (line : Line) :
  1 <= prec ->
  In line (find prec hash_nan hash_str self) ->
  exists q,
    candidate_target prec (points self) q /\
    line = from_points prec (_centroid prec self) q /\
    (is_vertical line = true ->
       dec_eqb (Line_x line) (Point_x (_centroid prec self)) = true) /\
    (is_vertical line = false ->
     from_points_exact prec (_centroid prec self) q ->
     contains_exact prec line (_centroid prec self) ->
       contains_point prec line (_centroid prec self) = true).
Proof.
  intros Hp Hin. apply find_spec in Hin. destruct Hin as [Hcand Hsym].
  destruct (candidates_source _ _ _ _ _ Hcand) as (q & Hq & Hline).
  exists q. split; [assumption |]. split; [assumption |]. split.
  - intros V. subst line. apply from_points_vertical_through; try assumption.
    destruct (is_nan (Line_x (from_points prec (_centroid prec self) q))) eqn:X;
      [exfalso | reflexivity].
    rewrite (unset_vertical_not_symmetry prec _ (points self) V X) in Hsym;
      [discriminate |].
    intros Hnil. rewrite candidates_short in Hcand; [exact Hcand |].
    rewrite Hnil. cbn. lia.
  - intros V Hex Hc. subst line.
    destruct (from_points_sloped_finite prec _ _ V) as (F0 & F1 & Hz).
    apply (from_points_contains_exact prec _ _ F0 F1 Hz Hex). exact Hc.
Qed.

Lemma C7_witness :
  1 <= prec28 /\
  In square_axis (find prec28 hash_nan0 hash_str0 (mkFinder square)) /\
  dec_eqb (Line_x square_axis) (Point_x (_centroid prec28 (mkFinder square))) = true.
Proof.
  assert (1 <= prec28) as Hp by (unfold prec28; lia).
  assert (In square_axis (find prec28 hash_nan0 hash_str0 (mkFinder square))) as Hin
    by (vm_compute; in_list).
  split; [exact Hp |]. split; [exact Hin |].
  destruct (C7_found_lines_and_the_centroid prec28 hash_nan0 hash_str0
              (mkFinder square) square_axis Hp Hin) as (q & _ & _ & Hv & _).
  apply Hv. reflexivity.
Defined.

(** C7, as stated, fails: at precision 28 the finder accepts the triangle
    (1,0), (2,0), (2,1); [find] yields its axis, a non-vertical line, and
    [contains_point] is false at the centroid.  The same holds in every
    iteration order of the three points. *)
Lemma C7_counterexample :
  SymmetryLineFinder_init prec28 hash_nan0 hash_str0 insertion_order triangle
    = Ok (mkFinder triangle) /\
  In triangle_axis (find prec28 hash_nan0 hash_str0 (mkFinder triangle)) /\
  is_vertical triangle_axis = false /\
  contains_point prec28 triangle_axis (_centroid prec28 (mkFinder triangle)) = false /\
  forallb
    (fun pts =>
       existsb
         (fun line =>
            negb (is_vertical line)
            && negb (contains_point prec28 line (_centroid prec28 (mkFinder pts))))
         (find prec28 hash_nan0 hash_str0 (mkFinder pts)))
    (orderings triangle) = true.
Proof.
  split; [vm_compute; reflexivity |].
  split; [vm_compute; in_list |].
  evaluate.
Qed.

(** C8.  No two lines produced by the candidate generator are equal under
    Line equality. *)
Theorem C8_candidates_pairwise_distinct
    (prec hash_nan : Z) (hash_str : string -> Z) (self : SymmetryLineFinder) :
  ForallOrdPairs (fun a b => Line_eq prec a b = false)
    (_candidate_symmetry_lines prec hash_nan hash_str self).
Proof. apply candidates_distinct. Qed.






(** * Further properties of the program

    The behaviour of [normalize], of the equalities and hashes, of
    [from_points], of the symmetry test, of the generator and of the
    finder, each read off [symmetry.py]. *)

(** The hypothesis [Forall2 same_point l l'] on two concrete lists. *)
Ltac same_points :=
  repeat first
    [ apply Forall2_nil
    | apply Forall2_cons; [split; right; vm_compute; reflexivity |] ].

(** ** [normalize] *)

(** X1.  [normalize] moves a decimal by at most half a unit of the last
    digit that precision [prec - 1] keeps, and not at all (in value) when
    the coefficient has at most [prec - 1] digits. *)
Theorem X1_normalize_rounding_error (prec : Z) (d : Decimal) :
  2 <= prec ->
  (Qabs (dec_value (normalize prec d) - dec_value d) <= half_unit (prec - 1) d)%Q /\
  (fits (prec - 1) d -> dec_eqb (normalize prec d) d = true).
Proof.
  intros Hp. split.
  - apply normalize_error. assumption.
  - apply normalize_fits.
Qed.

Lemma X1_witness :
  2 <= 9 /\
  (Qabs (dec_value (normalize 9 almost_minus_two) - dec_value almost_minus_two)
   <= half_unit 8 almost_minus_two)%Q.
Proof.
  assert (2 <= 9) as Hp by lia.
  split; [exact Hp | exact (proj1 (X1_normalize_rounding_error 9 almost_minus_two Hp))].
Defined.

(** X2.  The result of [normalize] is NaN exactly for NaN; otherwise it
    keeps the sign, has no trailing zero (a zero is [0e0]) and has at most
    [prec - 1] digits. *)
Theorem X2_normalize_result_shape (prec : Z) (d : Decimal) :
  2 <= prec ->
  is_nan (normalize prec d) = is_nan d /\
  canonical (normalize prec d) /\
  (forall s c e, d = Fin s c e ->
     exists c' e', normalize prec d = Fin s c' e' /\ ndigits c' <= prec - 1).
Proof.
  intros Hp. unfold normalize. split; [apply normalize_nan_iff |].
  split; [apply normalize_canonical |].
  intros s c e ->. destruct (normalize_is_Fin (prec - 1) s c e) as (c' & e' & H).
  exists c', e'. split; [assumption |].
  apply (normalize_digits (prec - 1) s c e s c' e'); [lia | assumption].
Qed.

Lemma X2_witness :
  2 <= 9 /\ canonical (normalize 9 almost_minus_two).
Proof.
  assert (2 <= 9) as Hp by lia.
  split; [exact Hp |].
  exact (proj1 (proj2 (X2_normalize_result_shape 9 almost_minus_two Hp))).
Defined.



(** ** Equality and hashes *)

(** X4.  Points that are equal have finite coordinates and the same hash:
    [Point] keeps the contract between [__eq__] and [__hash__]. *)
Theorem X4_equal_points_equal_hashes
    (prec hash_nan : Z) (hash_str : string -> Z) (a b : Point) :
  Point_eq prec a b = true ->
  Point_hash prec hash_nan hash_str a = Point_hash prec hash_nan hash_str b /\
  finite_point a /\ finite_point b.
Proof.
  intros H. split; [apply Point_eq_hash; assumption |].
  apply (Point_eq_finite prec). assumption.
Qed.

Lemma X4_witness :
  Point_eq prec28 (pt 50 0) (mkPoint fifty_point_zero (Fin true 0 0)) = true /\
  Point_hash prec28 hash_nan0 hash_str0 (pt 50 0)
  = Point_hash prec28 hash_nan0 hash_str0 (mkPoint fifty_point_zero (Fin true 0 0)).
Proof.
  assert (Point_eq prec28 (pt 50 0) (mkPoint fifty_point_zero (Fin true 0 0)) = true) as H
    by (vm_compute; reflexivity).
  split; [exact H |].
  exact (proj1 (X4_equal_points_equal_hashes prec28 hash_nan0 hash_str0 _ _ H)).
Defined.

(** X5.  Two lines built by [from_points] that are equal have the same
    hash: the unused fields of such lines hold NaN, so the field that
    [__eq__] ignores cannot separate their hashes. *)
Theorem X5_built_lines_hash_contract
    (prec hash_nan : Z) (hash_str : string -> Z) (p0 p1 q0 q1 : Point) :
  Line_eq prec (from_points prec p0 p1) (from_points prec q0 q1) = true ->
  Line_hash prec hash_nan hash_str (from_points prec p0 p1)
  = Line_hash prec hash_nan hash_str (from_points prec q0 q1).
Proof.
  intros H. apply Line_eq_hash; try assumption; apply from_points_shaped.
Qed.

Lemma X5_witness :
  Line_eq prec28 (from_points prec28 v0 v1)
                 (from_points prec28 (pt 4 0) (mkPoint (Fin false 40 (-1)) (dec_of_int 7)))
    = true /\
  Line_hash prec28 hash_nan0 hash_str0 (from_points prec28 v0 v1)
  = Line_hash prec28 hash_nan0 hash_str0
      (from_points prec28 (pt 4 0) (mkPoint (Fin false 40 (-1)) (dec_of_int 7))).
Proof.
  assert (Line_eq prec28 (from_points prec28 v0 v1)
            (from_points prec28 (pt 4 0) (mkPoint (Fin false 40 (-1)) (dec_of_int 7)))
          = true) as H by (vm_compute; reflexivity).
  split; [exact H |].
  exact (X5_built_lines_hash_contract prec28 hash_nan0 hash_str0 _ _ _ _ H).
Defined.

(** X6.  A vertical line and a line that is not vertical are never equal,
    in either order. *)
Theorem X6_vertical_never_equals_sloped (prec : Z) (a b : Line) :
  is_vertical a = true -> is_vertical b = false ->
  Line_eq prec a b = false /\ Line_eq prec b a = false.
Proof.
  intros Va Vb.
  assert (Line_eq prec a b = false) as H.
  { destruct (Line_eq prec a b) eqn:E; [| reflexivity].
    apply Line_eq_true in E. destruct E as [(_ & E & _) | (E & _)]; congruence. }
  split; [assumption | rewrite Line_eq_sym; assumption].
Qed.

Lemma X6_witness :
  Line_eq prec28 square_axis line_1_2 = false /\
  Line_eq prec28 line_1_2 square_axis = false.
Proof.
  exact (X6_vertical_never_equals_sloped prec28 square_axis line_1_2 eq_refl eq_refl).
Defined.

(** X7.  Equal points are close: on each axis the coordinates differ by at
    most the sum of their two rounding half-units. *)
Theorem X7_equal_points_are_close (prec : Z) (p q : Point) :
  2 <= prec -> Point_eq prec p q = true ->
  (Qabs (dec_value (Point_x p) - dec_value (Point_x q))
   <= half_unit (prec - 1) (Point_x p) + half_unit (prec - 1) (Point_x q))%Q /\
  (Qabs (dec_value (Point_y p) - dec_value (Point_y q))
   <= half_unit (prec - 1) (Point_y p) + half_unit (prec - 1) (Point_y q))%Q.
Proof.
  intros Hp H. unfold Point_eq in H. apply andb_true_iff in H. destruct H as [Hx Hy].
  split; apply dec_eqb_normalize_close; assumption.
Qed.

Lemma X7_witness :
  Point_eq 9 (mkPoint almost_minus_two (dec_of_int 0)) (pt (-2) 0) = true /\
  (Qabs (dec_value almost_minus_two - dec_value (dec_of_int (-2)))
   <= half_unit 8 almost_minus_two + half_unit 8 (dec_of_int (-2)))%Q.
Proof.
  assert (2 <= 9) as Hp by lia.
  assert (Point_eq 9 (mkPoint almost_minus_two (dec_of_int 0)) (pt (-2) 0) = true) as H
    by (vm_compute; reflexivity).
  split; [exact H |].
  exact (proj1 (X7_equal_points_are_close 9 _ _ Hp H)).
Defined.

(** X8.  On coordinates of at most [prec - 1] digits, Point equality is
    the exact comparison of the coordinates. *)
Theorem X8_point_equality_exact_on_short_coordinates (prec : Z) (p q : Point) :
  fits (prec - 1) (Point_x p) -> fits (prec - 1) (Point_y p) ->
  fits (prec - 1) (Point_x q) -> fits (prec - 1) (Point_y q) ->
  Point_eq prec p q = dec_eqb (Point_x p) (Point_x q) && dec_eqb (Point_y p) (Point_y q).
Proof.
  intros Hpx Hpy Hqx Hqy. unfold Point_eq.
  f_equal; apply same_value_eqb; right; apply normalize_fits; assumption.
Qed.

Lemma X8_witness :
  Point_eq prec28 (pt 4 1) (pt 4 5)
  = dec_eqb (dec_of_int 4) (dec_of_int 4) && dec_eqb (dec_of_int 1) (dec_of_int 5).
Proof.
  assert (fits (prec28 - 1) (dec_of_int 4)) as H4 by (vm_compute; discriminate).
  assert (fits (prec28 - 1) (dec_of_int 1)) as H1 by (vm_compute; discriminate).
  assert (fits (prec28 - 1) (dec_of_int 5)) as H5 by (vm_compute; discriminate).
  exact (X8_point_equality_exact_on_short_coordinates prec28 (pt 4 1) (pt 4 5) H4 H1 H4 H5).
Defined.

(** ** [Line.from_points] *)

(** X9.  For a context precision of at least 1, [from_points] returns the
    vertical line exactly when the two abscissas compare equal (the rounded
    difference is zero only then); from finite points it returns a line
    whose used fields are set and whose unused fields are NaN. *)
Theorem X9_from_points_vertical_iff_equal_abscissas (prec : Z) (p0 p1 : Point) :
  1 <= prec ->
  from_points prec p0 p1 =
    (if dec_eqb (Point_x p1) (Point_x p0) then mkLine NaN NaN (Point_x p1)
     else
       mkLine
         (dec_div prec (dec_sub prec (Point_y p1) (Point_y p0))
                       (dec_sub prec (Point_x p1) (Point_x p0)))
         (dec_sub prec (Point_y p1)
            (dec_mul prec
               (dec_div prec (dec_sub prec (Point_y p1) (Point_y p0))
                             (dec_sub prec (Point_x p1) (Point_x p0)))
               (Point_x p1)))
         NaN) /\
  (finite_point p0 -> finite_point p1 ->
   well_formed_line (from_points prec p0 p1) /\
   is_vertical (from_points prec p0 p1) = dec_eqb (Point_x p1) (Point_x p0)).
Proof.
  intros Hp. split.
  - rewrite from_points_by_abscissa by assumption. reflexivity.
  - intros H0 H1. apply from_points_well_formed; assumption.
Qed.

Lemma X9_witness :
  1 <= prec28 /\
  is_vertical (from_points prec28 s0 s1) = dec_eqb (Point_x s1) (Point_x s0).
Proof.
  assert (1 <= prec28) as Hp by (unfold prec28; lia).
  assert (finite_point s0) as H0 by (split; reflexivity).
  assert (finite_point s1) as H1 by (split; reflexivity).
  split; [exact Hp |].
  exact (proj2 (proj2 (X9_from_points_vertical_iff_equal_abscissas prec28 s0 s1 Hp) H0 H1)).
Defined.

(** X10.  The line through two finite points with different abscissas is
    horizontal exactly when the ordinates compare equal. *)
Theorem X10_from_points_horizontal_iff_equal_ordinates (prec : Z) (p0 p1 : Point) :
  1 <= prec -> finite_point p0 -> finite_point p1 ->
  dec_eqb (Point_x p1) (Point_x p0) = false ->
  is_horizontal (from_points prec p0 p1) = dec_eqb (Point_y p1) (Point_y p0).
Proof. intros Hp H0 H1 Hx. apply from_points_horizontal; assumption. Qed.

Lemma X10_witness :
  dec_eqb (Point_x (pt 3 5)) (Point_x (pt 0 5)) = false /\
  is_horizontal (from_points prec28 (pt 0 5) (pt 3 5))
  = dec_eqb (Point_y (pt 3 5)) (Point_y (pt 0 5)).
Proof.
  assert (1 <= prec28) as Hp by (unfold prec28; lia).
  assert (finite_point (pt 0 5)) as H0 by (split; reflexivity).
  assert (finite_point (pt 3 5)) as H1 by (split; reflexivity).
  assert (dec_eqb (Point_x (pt 3 5)) (Point_x (pt 0 5)) = false) as Hx
    by (vm_compute; reflexivity).
  split; [exact Hx |].
  exact (X10_from_points_horizontal_iff_equal_ordinates prec28 _ _ Hp H0 H1 Hx).
Defined.




(** ** [Line.is_symmetry_line] and [Line.folded_point] *)

(** X13.  The symmetry test does not depend on the order of the points. *)
Theorem X13_symmetry_test_ignores_order (prec : Z) (line : Line) (pts pts' : list Point) :
  Permutation pts pts' ->
  is_symmetry_line prec line pts = is_symmetry_line prec line pts'.
Proof.
  intros Hp.
  destruct (is_symmetry_line prec line pts) eqn:E, (is_symmetry_line prec line pts') eqn:E';
    try reflexivity.
  - apply is_symmetry_line_true in E. apply (folds_into_perm _ _ _ _ Hp) in E.
    apply is_symmetry_line_true in E. congruence.
  - apply is_symmetry_line_true in E'. apply (folds_into_perm _ _ _ _ (Permutation_sym Hp)) in E'.
    apply is_symmetry_line_true in E'. congruence.
Qed.

Lemma X13_witness :
  is_symmetry_line prec28 square_axis square
  = is_symmetry_line prec28 square_axis (rev square).
Proof.
  exact (X13_symmetry_test_ignores_order prec28 square_axis square (rev square)
           (Permutation_rev square)).
Defined.



(** X15.  Folding a finite point over a well-formed line gives a finite
    point: no NaN is produced, in any of the three cases of
    [perpendicular_intersection_point]. *)
Theorem X15_fold_of_finite_point_is_finite (prec : Z) (self : Line) (p : Point) :
  1 <= prec -> well_formed_line self -> finite_point p ->
  finite_point (folded_point prec self p).
Proof.
  intros Hp Hl [Fx Fy]. unfold folded_point.
  destruct (contains_point prec self p); [split; assumption |]. cbv zeta.
  unfold perpendicular_intersection_point, is_vertical, finite_point.
  destruct Hl as [(Hs & Hi & Hx) | (Hs & Hi & Hx)]; rewrite Hs, Hi; cbn [orb].
  - cbn [Point_x Point_y]. rewrite !dec_sub_nan, !dec_mul_nan, Hx, Fx, Fy. cbn. auto.
  - destruct (is_horizontal self) eqn:Hh.
    + cbn [Point_x Point_y]. rewrite !dec_sub_nan, !dec_mul_nan, Hi, Fx, Fy. cbn. auto.
    + cbv zeta. cbn [Point_x Point_y].
      unfold is_horizontal in Hh. rewrite dec_eqb_zero in Hh.
      destruct (division_sites_nonzero prec) as (_ & Hd & _).
      rewrite !dec_sub_nan, !dec_mul_nan, !dec_add_nan, !dec_mul_nan, !dec_sub_nan,
        !dec_add_nan, !dec_div_nan, !dec_add_nan, !dec_mul_nan, Hd, Hh, Hs, Hi, Fx, Fy
        by assumption.
      cbn. auto.
Qed.

Lemma X15_witness :
  well_formed_line line_1_2 /\ finite_point (folded_point prec28 line_1_2 (pt 1 1)).
Proof.
  assert (1 <= prec28) as Hp by (unfold prec28; lia).
  assert (well_formed_line line_1_2) as Hl by (right; repeat split; reflexivity).
  assert (finite_point (pt 1 1)) as Hf by (split; reflexivity).
  split; [exact Hl |].
  exact (X15_fold_of_finite_point_is_finite prec28 line_1_2 (pt 1 1) Hp Hl Hf).
Defined.

(** ** [SymmetryLineFinder] *)

(** X16.  The centroid of a non-empty list of points is finite exactly
    when every point is. *)
Theorem X16_centroid_finite_iff_points_finite (prec : Z) (self : SymmetryLineFinder) :
  points self <> [] ->
  (finite_point (_centroid prec self) <-> Forall finite_point (points self)).
Proof. intros Hne. apply centroid_finite. assumption. Qed.

Lemma X16_witness :
  finite_point (_centroid prec28 (mkFinder square)) <-> Forall finite_point square.
Proof.
  assert (points (mkFinder square) <> []) as Hne by discriminate.
  exact (X16_centroid_finite_iff_points_finite prec28 (mkFinder square) Hne).
Defined.


(** X18.  From finite points the generator only yields well-formed lines:
    a vertical line with its [x] set, or a sloped line with its slope and
    intercept set. *)
Theorem X18_candidates_well_formed
    (prec hash_nan : Z) (hash_str : string -> Z) (self : SymmetryLineFinder) (line : Line) :
  1 <= prec -> Forall finite_point (points self) ->
  In line (_candidate_symmetry_lines prec hash_nan hash_str self) ->
  well_formed_line line.
Proof.
  intros Hp Hfin Hin.
  assert (points self <> []) as Hne.
  { intros Hnil. rewrite candidates_short in Hin; [destruct Hin | rewrite Hnil; cbn; lia]. }
  destruct (candidates_source _ _ _ _ _ Hin) as (q & Hq & ->).
  apply from_points_well_formed; [assumption | apply centroid_finite; assumption |].
  rewrite Forall_forall in Hfin.
  destruct Hq as [Hq | (p0 & p1 & H0 & H1 & ->)]; [apply Hfin; assumption |].
  apply bisection_finite; apply Hfin; assumption.
Qed.

Lemma X18_witness :
  In square_axis (_candidate_symmetry_lines prec28 hash_nan0 hash_str0 (mkFinder square)) /\
  well_formed_line square_axis.
Proof.
  assert (1 <= prec28) as Hp by (unfold prec28; lia).
  assert (Forall finite_point (points (mkFinder square))) as Hfin
    by (repeat constructor).
  assert (In square_axis
            (_candidate_symmetry_lines prec28 hash_nan0 hash_str0 (mkFinder square))) as Hin
    by (vm_compute; in_list).
  split; [exact Hin |].
  exact (X18_candidates_well_formed prec28 hash_nan0 hash_str0 (mkFinder square)
           square_axis Hp Hfin Hin).
Defined.

(** X19.  Among the candidates of finite points there is at most one
    vertical line and at most one horizontal line. *)
Theorem X19_one_vertical_one_horizontal_candidate
    (prec hash_nan : Z) (hash_str : string -> Z) (self : SymmetryLineFinder) :
  1 <= prec -> Forall finite_point (points self) ->
  (List.length (filter is_vertical
     (_candidate_symmetry_lines prec hash_nan hash_str self)) <= 1)%nat /\
  (List.length (filter is_horizontal
     (_candidate_symmetry_lines prec hash_nan hash_str self)) <= 1)%nat.
Proof.
  intros Hp Hfin.
  assert (forall a, In a (_candidate_symmetry_lines prec hash_nan hash_str self) ->
            finite_point (_centroid prec self) /\
            exists q, finite_point q /\ a = from_points prec (_centroid prec self) q) as Hsrc.
  { intros a Ha.
    assert (points self <> []) as Hne.
    { intros Hnil. rewrite candidates_short in Ha; [destruct Ha | rewrite Hnil; cbn; lia]. }
    split; [apply centroid_finite; assumption |].
    destruct (candidates_source _ _ _ _ _ Ha) as (q & Hq & ->).
    exists q. split; [eapply target_finite; eassumption | reflexivity]. }
  split; apply (filter_at_most_one (Line_eq prec)); try apply candidates_distinct;
    intros a b Ha Hb Pa Pb;
    destruct (Hsrc a Ha) as (Hc & q & Hq & ->); destruct (Hsrc b Hb) as (_ & q' & Hq' & ->).
  - apply vertical_lines_equal; assumption.
  - apply horizontal_lines_equal; assumption.
Qed.

Lemma X19_witness :
  (List.length (filter is_vertical
     (_candidate_symmetry_lines prec28 hash_nan0 hash_str0 (mkFinder square))) <= 1)%nat /\
  (List.length (filter is_horizontal
     (_candidate_symmetry_lines prec28 hash_nan0 hash_str0 (mkFinder square))) <= 1)%nat.
Proof.
  assert (1 <= prec28) as Hp by (unfold prec28; lia).
  assert (Forall finite_point (points (mkFinder square))) as Hfin
    by (repeat constructor).
  exact (X19_one_vertical_one_horizontal_candidate prec28 hash_nan0 hash_str0
           (mkFinder square) Hp Hfin).
Defined.

(** X20.  The candidates and the lines found do not depend on the hash of
    strings or of NaN, which change from one run of the interpreter to the
    next. *)
Theorem X20_result_independent_of_hash_salt
    (prec hn hn' : Z) (hs hs' : string -> Z) (self : SymmetryLineFinder) :
  _candidate_symmetry_lines prec hn hs self = _candidate_symmetry_lines prec hn' hs' self /\
  find_all prec hn hs self = find_all prec hn' hs' self /\
  find prec hn hs self = find prec hn' hs' self.
Proof.
  pose proof (candidates_hash_independent prec hn hn' hs hs' self) as H.
  split; [assumption |]. unfold find, find_all. rewrite H. split; reflexivity.
Qed.

(** X21.  A line that [find] returns is equal to itself (its used fields
    are set), and it is returned only when there are at least 3 points and
    all of them are finite; the lines returned are pairwise different. *)
Theorem X21_found_lines
    (prec hash_nan : Z) (hash_str : string -> Z) (self : SymmetryLineFinder) (line : Line) :
  In line (find prec hash_nan hash_str self) ->
  Line_eq prec line line = true /\
  (3 <= List.length (points self))%nat /\
  Forall finite_point (points self) /\
  ForallOrdPairs (fun a b => Line_eq prec a b = false) (find prec hash_nan hash_str self).
Proof.
  intros Hin. split; [apply (find_line_set prec hash_nan hash_str self); assumption |].
  split; [apply (find_nonempty_points prec hash_nan hash_str self line); assumption |].
  split; [apply (find_all_finite prec hash_nan hash_str self line); assumption |].
  apply find_distinct.
Qed.

Lemma X21_witness :
  In square_axis (find prec28 hash_nan0 hash_str0 (mkFinder square)) /\
  Line_eq prec28 square_axis square_axis = true.
Proof.
  assert (In square_axis (find prec28 hash_nan0 hash_str0 (mkFinder square))) as Hin
    by (vm_compute; in_list).
  split; [exact Hin |].
  exact (proj1 (X21_found_lines prec28 hash_nan0 hash_str0 (mkFinder square) square_axis Hin)).
Defined.

(** X22.  The finder reads values, not representations: writing the
    coordinates with other exponents (50, 50.0, 5E+1) or a zero with the
    other sign leaves the candidates and the lines found unchanged, line
    by line and field by field in value. *)
Theorem X22_find_reads_values
    (prec hash_nan : Z) (hash_str : string -> Z) (self self' : SymmetryLineFinder) :
  Forall2 same_point (points self) (points self') ->
  Forall2 same_line (_candidate_symmetry_lines prec hash_nan hash_str self)
                    (_candidate_symmetry_lines prec hash_nan hash_str self') /\
  Forall2 same_line (find prec hash_nan hash_str self) (find prec hash_nan hash_str self').
Proof.
  intros H. split; [apply same_candidates | apply same_find]; assumption.
Qed.

Lemma X22_witness :
  Forall2 same_point square square_rewritten /\
  Forall2 same_line (find prec28 hash_nan0 hash_str0 (mkFinder square))
                    (find prec28 hash_nan0 hash_str0 (mkFinder square_rewritten)).
Proof.
  assert (Forall2 same_point square square_rewritten) as H by same_points.
  split; [exact H |].
  exact (proj2 (X22_find_reads_values prec28 hash_nan0 hash_str0
                  (mkFinder square) (mkFinder square_rewritten) H)).
Defined.

(** X23.  The methods of [Line] read values, not representations: on
    lines and points of the same values, [contains_point] and
    [is_symmetry_line] answer the same, and the foot of the perpendicular
    and the folded point have the same values. *)
Theorem X23_line_methods_read_values
    (prec : Z) (l l' : Line) (p p' : Point) (pts pts' : list Point) :
  same_line l l' -> same_point p p' -> Forall2 same_point pts pts' ->
  contains_point prec l p = contains_point prec l' p' /\
  same_point (perpendicular_intersection_point prec l p)
             (perpendicular_intersection_point prec l' p') /\
  same_point (folded_point prec l p) (folded_point prec l' p') /\
  is_symmetry_line prec l pts = is_symmetry_line prec l' pts'.
Proof.
  intros Hl Hp Hpts. split; [apply same_contains_point; assumption |].
  split; [apply same_perpendicular; assumption |].
  split; [apply same_folded_point; assumption |].
  apply same_is_symmetry_line; assumption.
Qed.

Lemma X23_witness :
  is_symmetry_line prec28 square_axis square
  = is_symmetry_line prec28 (mkLine NaN NaN (Fin false 250 (-1))) square_rewritten.
Proof.
  assert (same_line square_axis (mkLine NaN NaN (Fin false 250 (-1)))) as Hl.
  { split; [left; split; reflexivity |]. split; [left; split; reflexivity |].
    right. vm_compute. reflexivity. }
  assert (same_point (pt 0 50) (pt 0 50)) as Hp by (split; right; vm_compute; reflexivity).
  assert (Forall2 same_point square square_rewritten) as H by same_points.
  exact (proj2 (proj2 (proj2 (X23_line_methods_read_values prec28 _ _ _ _ _ _ Hl Hp H)))).
Defined.

(** X24.  Equality of points reads values, not representations, and so
    do the hash of a finite point and [set(points)]: from two lists of the
    same values the set keeps the same positions. *)
Theorem X24_point_equality_reads_values
    (prec hash_nan : Z) (hash_str : string -> Z) (p p' q q' : Point) (l l' : list Point) :
  same_point p p' -> same_point q q' -> Forall2 same_point l l' ->
  Point_eq prec p q = Point_eq prec p' q' /\
  (finite_point p ->
   Point_hash prec hash_nan hash_str p = Point_hash prec hash_nan hash_str p') /\
  Forall2 same_point (py_set prec hash_nan hash_str l) (py_set prec hash_nan hash_str l').
Proof.
  intros Hp Hq Hl. split; [apply same_point_eq; assumption |].
  split; [intros _; apply same_point_hash; assumption | apply same_py_set; assumption].
Qed.

Lemma X24_witness :
  Forall2 same_point (py_set prec28 hash_nan0 hash_str0 square)
                     (py_set prec28 hash_nan0 hash_str0 square_rewritten).
Proof.
  assert (same_point (pt 0 50) (pt 0 50)) as Hp by (split; right; vm_compute; reflexivity).
  assert (Forall2 same_point square square_rewritten) as H by same_points.
  exact (proj2 (proj2 (X24_point_equality_reads_values prec28 hash_nan0 hash_str0
                         _ _ _ _ _ _ Hp Hp H))).
Defined.

(** X25.  Equality and hash of lines, and [from_points], read values, not
    representations. *)
Theorem X25_line_equality_reads_values
    (prec hash_nan : Z) (hash_str : string -> Z) (l l' m m' : Line) (p0 p0' p1 p1' : Point) :
  same_line l l' -> same_line m m' -> same_point p0 p0' -> same_point p1 p1' ->
  Line_eq prec l m = Line_eq prec l' m' /\
  Line_hash prec hash_nan hash_str l = Line_hash prec hash_nan hash_str l' /\
  is_vertical l = is_vertical l' /\
  is_horizontal l = is_horizontal l' /\
  same_line (from_points prec p0 p1) (from_points prec p0' p1').
Proof.
  intros Hl Hm H0 H1. split; [apply same_line_eq; assumption |].
  split; [apply same_line_hash; assumption |].
  split; [apply same_line_vertical; assumption |].
  split; [apply same_line_horizontal; assumption |].
  apply same_point_from_points; assumption.
Qed.

Lemma X25_witness :
  Line_hash prec28 hash_nan0 hash_str0 square_axis
  = Line_hash prec28 hash_nan0 hash_str0 (mkLine NaN NaN (Fin false 250 (-1))).
Proof.
  assert (same_line square_axis (mkLine NaN NaN (Fin false 250 (-1)))) as Hl.
  { split; [left; split; reflexivity |]. split; [left; split; reflexivity |].
    right. vm_compute. reflexivity. }
  assert (same_point (pt 0 50) (pt 0 50)) as Hp by (split; right; vm_compute; reflexivity).
  exact (proj1 (proj2 (X25_line_equality_reads_values prec28 hash_nan0 hash_str0
                         _ _ _ _ _ _ _ _ Hl Hl Hp Hp))).
Defined.

(** X26.  What the constructor stores, in whatever order the set is read:
    points of the input only, no two of them equal, and for every point of
    the input that point or a point equal to it. *)
Theorem X26_stored_points
    (prec hash_nan : Z) (hash_str : string -> Z) (order : SetOrder)
    (pts : list Point) (self : SymmetryLineFinder) :
  SymmetryLineFinder_init prec hash_nan hash_str order pts = Ok self ->
  incl (points self) pts /\
  ForallOrdPairs (fun a b => Point_eq prec a b = false) (points self) /\
  (forall p, In p pts ->
     exists q, In q (points self) /\ (q = p \/ Point_eq prec q p = true)).
Proof.
  intros H. destruct (init_spec prec hash_nan hash_str order pts) as [_ Hok].
  destruct (Hok self H) as (_ & Hperm & _).
  destruct (py_set_spec prec hash_nan hash_str pts) as (Hincl & Hdist & Hcover).
  split; [| split].
  - intros p Hp. apply Hincl. eapply Permutation_in; eassumption.
  - apply (ForallOrdPairs_perm _ (py_set prec hash_nan hash_str pts));
      [| apply Permutation_sym; assumption | assumption].
    intros a b Hab. rewrite Point_eq_sym. assumption.
  - intros p Hp. destruct (Hcover p Hp) as (q & Hq & Hqp).
    exists q. split; [| assumption].
    eapply Permutation_in; [apply Permutation_sym |]; eassumption.
Qed.

Lemma X26_witness :
  SymmetryLineFinder_init prec28 hash_nan0 hash_str0 insertion_order three_copies
    = Ok (mkFinder [pt 1 1]) /\
  incl [pt 1 1] three_copies.
Proof.
  assert (SymmetryLineFinder_init prec28 hash_nan0 hash_str0 insertion_order three_copies
          = Ok (mkFinder [pt 1 1])) as Hok by (vm_compute; reflexivity).
  split; [exact Hok |].
  exact (proj1 (X26_stored_points prec28 hash_nan0 hash_str0 insertion_order
                  three_copies (mkFinder [pt 1 1]) Hok)).
Defined.

(** ** The formulas, when nothing is rounded *)

(** X27.  For a line that is neither vertical nor horizontal, when none of
    the nine operations rounds, the point that
    [perpendicular_intersection_point] returns lies on the line, and the
    segment from the given point to it is perpendicular to the line. *)
Theorem X27_perpendicular_foot (prec : Z) (self : Line) (p0 : Point) :
  is_vertical self = false -> is_horizontal self = false ->
  perpendicular_exact prec self p0 ->
  (dec_value (Point_y (perpendicular_intersection_point prec self p0))
   == dec_value (Line_slope self)
      * dec_value (Point_x (perpendicular_intersection_point prec self p0))
      + dec_value (Line_intercept self))%Q /\
  ((dec_value (Point_x (perpendicular_intersection_point prec self p0))
    - dec_value (Point_x p0))
   + dec_value (Line_slope self)
     * (dec_value (Point_y (perpendicular_intersection_point prec self p0))
        - dec_value (Point_y p0)) == 0)%Q.
Proof.
  intros V H E. unfold perpendicular_intersection_point. rewrite V, H. cbv zeta.
  cbn [Point_x Point_y].
  unfold perpendicular_exact in E. cbv zeta in E.
  destruct E as (E1 & E2 & E3 & E4 & E5 & E6 & E7 & E8 & E9).
  unfold exact_mul, exact_add, exact_sub, exact_div in *.
  rewrite dec_value_1 in E2.
  set (m := dec_value (Line_slope self)) in *.
  set (b := dec_value (Line_intercept self)) in *.
  set (x0 := dec_value (Point_x p0)) in *.
  set (y0 := dec_value (Point_y p0)) in *.
  set (q := dec_value (dec_div prec (Line_slope self) _)) in *.
  set (r := dec_value (dec_div prec (Point_x p0) _)) in *.
  rewrite E9, E8, E7, E6, E5. split; [ring |].
  rewrite E2, E1 in E3.
  apply (Qeq_trans _ ((y0 + r - b) * (q * (m * m + 1) - m) + (r * m - x0))%Q); [ring |].
  rewrite E3, E4. ring.
Qed.

Lemma X27_witness :
  perpendicular_exact prec28 line_y_eq_x (pt 1 0) /\
  (dec_value (Point_y (perpendicular_intersection_point prec28 line_y_eq_x (pt 1 0)))
   == dec_value (Line_slope line_y_eq_x)
      * dec_value (Point_x (perpendicular_intersection_point prec28 line_y_eq_x (pt 1 0)))
      + dec_value (Line_intercept line_y_eq_x))%Q.
Proof.
  assert (perpendicular_exact prec28 line_y_eq_x (pt 1 0)) as E
    by (unfold perpendicular_exact; cbv zeta; evaluate).
  split; [exact E |].
  exact (proj1 (X27_perpendicular_foot prec28 line_y_eq_x (pt 1 0) eq_refl eq_refl E)).
Defined.

(** X28.  Folding reflects: for a point that the line does not contain,
    when the two doublings and subtractions do not round, the middle of
    the point and its fold is the point that
    [perpendicular_intersection_point] returns. *)
Theorem X28_fold_is_reflection (prec : Z) (self : Line) (p0 : Point) :
  contains_point prec self p0 = false ->
  reflect_exact prec (perpendicular_intersection_point prec self p0) p0 ->
  (dec_value (Point_x (folded_point prec self p0)) + dec_value (Point_x p0)
   == 2 * dec_value (Point_x (perpendicular_intersection_point prec self p0)))%Q /\
  (dec_value (Point_y (folded_point prec self p0)) + dec_value (Point_y p0)
   == 2 * dec_value (Point_y (perpendicular_intersection_point prec self p0)))%Q.
Proof.
  intros C (E1 & E2 & E3 & E4). unfold folded_point. rewrite C. cbv zeta.
  cbn [Point_x Point_y]. unfold exact_mul, exact_sub in *.
  rewrite E2, E1, E4, E3, dec_value_2. split; ring.
Qed.

Lemma X28_witness :
  folded_point prec28 line_y_eq_x (pt 1 0) = mkPoint (Fin false 0 (-1)) (Fin false 10 (-1)) /\
  (dec_value (Point_x (folded_point prec28 line_y_eq_x (pt 1 0))) + dec_value (Point_x (pt 1 0))
   == 2 * dec_value (Point_x (perpendicular_intersection_point prec28 line_y_eq_x (pt 1 0))))%Q.
Proof.
  assert (contains_point prec28 line_y_eq_x (pt 1 0) = false) as C
    by (vm_compute; reflexivity).
  assert (reflect_exact prec28 (perpendicular_intersection_point prec28 line_y_eq_x (pt 1 0))
            (pt 1 0)) as E
    by (unfold reflect_exact; evaluate).
  split; [vm_compute; reflexivity |].
  exact (proj1 (X28_fold_is_reflection prec28 line_y_eq_x (pt 1 0) C E)).
Defined.

(** X29.  When no addition and no division rounds, the centroid times the
    number of points is the sum of the coordinates: the centroid is the
    mean of the points. *)
Theorem X29_centroid_is_mean (prec : Z) (self : SymmetryLineFinder) :
  sum_exact prec (map Point_x (points self)) ->
  sum_exact prec (map Point_y (points self)) ->
  exact_div prec (py_sum prec (map Point_x (points self)))
    (dec_of_int (Z.of_nat (List.length (points self)))) ->
  exact_div prec (py_sum prec (map Point_y (points self)))
    (dec_of_int (Z.of_nat (List.length (points self)))) ->
  (dec_value (Point_x (_centroid prec self)) * inject_Z (Z.of_nat (List.length (points self)))
   == total (map Point_x (points self)))%Q /\
  (dec_value (Point_y (_centroid prec self)) * inject_Z (Z.of_nat (List.length (points self)))
   == total (map Point_y (points self)))%Q.
Proof.
  intros Sx Sy Dx Dy. unfold _centroid. cbv zeta. cbn [Point_x Point_y].
  unfold exact_div in Dx, Dy. rewrite dec_value_of_nat in Dx, Dy.
  rewrite Dx, Dy. split; apply py_sum_total; assumption.
Qed.

Lemma X29_witness :
  _centroid prec28 (mkFinder square) = pt 25 25 /\
  (dec_value (Point_x (_centroid prec28 (mkFinder square)))
   * inject_Z (Z.of_nat (List.length (points (mkFinder square))))
   == total (map Point_x (points (mkFinder square))))%Q.
Proof.
  assert (sum_exact prec28 (map Point_x (points (mkFinder square)))) as Sx
    by (cbn [sum_exact adds_exact map points square]; evaluate).
  assert (sum_exact prec28 (map Point_y (points (mkFinder square)))) as Sy
    by (cbn [sum_exact adds_exact map points square]; evaluate).
  assert (exact_div prec28 (py_sum prec28 (map Point_x (points (mkFinder square))))
            (dec_of_int (Z.of_nat (List.length (points (mkFinder square)))))) as Dx
    by (vm_compute; reflexivity).
  assert (exact_div prec28 (py_sum prec28 (map Point_y (points (mkFinder square))))
            (dec_of_int (Z.of_nat (List.length (points (mkFinder square)))))) as Dy
    by (vm_compute; reflexivity).
  split; [vm_compute; reflexivity |].
  exact (proj1 (X29_centroid_is_mean prec28 (mkFinder square) Sx Sy Dx Dy)).
Defined.

(** X30.  When its three operations per coordinate do not round, a
    [BisectionPoint] is the middle of its two parents. *)
Theorem X30_bisection_is_middle (prec : Z) (p0 p1 : Point) :
  bisect_exact prec (Point_x p0) (Point_x p1) ->
  bisect_exact prec (Point_y p0) (Point_y p1) ->
  (2 * dec_value (Point_x (bp_point (BisectionPoint_init prec p0 p1)))
   == dec_value (Point_x p0) + dec_value (Point_x p1))%Q /\
  (2 * dec_value (Point_y (bp_point (BisectionPoint_init prec p0 p1)))
   == dec_value (Point_y p0) + dec_value (Point_y p1))%Q.
Proof.
  intros (X1 & X2 & X3) (Y1 & Y2 & Y3). unfold BisectionPoint_init. cbv zeta.
  cbn [bp_point Point_x Point_y]. unfold exact_sub, exact_div, exact_add in *.
  rewrite dec_value_two in X2, Y2. rewrite X3, Y3. split.
  - apply (Qeq_trans _ (dec_value (dec_div prec (dec_sub prec (Point_x p1) (Point_x p0))
                                (Fin false 20 (-1))) * 2 + 2 * dec_value (Point_x p0))%Q);
      [ring | rewrite X2, X1; ring].
  - apply (Qeq_trans _ (dec_value (dec_div prec (dec_sub prec (Point_y p1) (Point_y p0))
                                (Fin false 20 (-1))) * 2 + 2 * dec_value (Point_y p0))%Q);
      [ring | rewrite Y2, Y1; ring].
Qed.

Lemma X30_witness :
  bp_point (BisectionPoint_init prec28 (pt 4 1) (pt 8 2))
  = mkPoint (Fin false 6 0) (Fin false 15 (-1)) /\
  (2 * dec_value (Point_x (bp_point (BisectionPoint_init prec28 (pt 4 1) (pt 8 2))))
   == dec_value (Point_x (pt 4 1)) + dec_value (Point_x (pt 8 2)))%Q.
Proof.
  assert (bisect_exact prec28 (Point_x (pt 4 1)) (Point_x (pt 8 2))) as Hx
    by (unfold bisect_exact; evaluate).
  assert (bisect_exact prec28 (Point_y (pt 4 1)) (Point_y (pt 8 2))) as Hy
    by (unfold bisect_exact; evaluate).
  split; [vm_compute; reflexivity |].
  exact (proj1 (X30_bisection_is_middle prec28 (pt 4 1) (pt 8 2) Hx Hy)).
Defined.
